(** * TwitchUp: live-state tracking and notification de-duplication

    A shallow embedding of the bot's storage layer ([storage.js]), of the
    Twitch lookup it polls ([twitch-api.js]) and of the polling sweep
    ([index.js]), followed by the properties of the specification that
    hold of them and the ones that do not; then of the token cache, the
    link and user lookups and the command handlers, with what the code
    shows of them.

    Conventions of the embedding.
    - A JavaScript [Date] is represented by its time value: an integer
      number of milliseconds since the epoch, or NaN ([InvalidDate]).
      A timestamp string is represented by the time value that
      [new Date(string)] gives it.  [new Date().toISOString()] prints a
      valid date with millisecond precision and [new Date(...)] reads it
      back exactly, so a ledger entry is the integer that was the clock
      reading when it was written.
    - [streamers.json] is the only mutable state of [storage.js]; every
      function reads it and (possibly) rewrites it as a whole.  The file is
      an [option]: [None] before it has been created.
    - Identifiers are the platform's numeric strings; the ledger object is
      a finite map on its own keys. *)

From Stdlib Require Import ZArith.
From stdpp Require Import gmap strings list fin_maps.

Local Open Scope Z_scope.

(** ** Data returned by the Twitch API *)

Module Twitch.

(** An element of [data] in the answer of [/helix/users]. *)
Record User := {
  id : string;
  login : string;
  display_name : string;
  profile_image_url : string
}.

(** An element of [data] in the answer of [/helix/streams].  Any field may
    be missing ([undefined]); [started_at] is [None] when it is missing or
    is not a date string, the cases in which [new Date(started_at)] is an
    Invalid Date. *)
Record Stream := {
  title : option string;
  game_name : option string;
  thumbnail_url : option string;
  viewer_count : option Z;
  started_at : option Z
}.

End Twitch.

(** ** JavaScript dates *)

Inductive Date :=
  | ValidDate (ms : Z)
  | InvalidDate.

(** [new Date(v)] for a timestamp value that may be [undefined]. *)
Definition newDate (v : option Z) : Date :=
  match v with
  | Some ms => ValidDate ms
  | None => InvalidDate
  end.

(** [a > b] on two dates compares their time values as numbers; a
    comparison with NaN is false. *)
Definition date_gt (a b : Date) : bool :=
  match a, b with
  | ValidDate x, ValidDate y => x >? y
  | _, _ => false
  end.

(** ** storage.js *)

Module Storage.

Record CurrentStream := {
  title : option string;
  gameName : option string;
  thumbnailUrl : option string;
  viewerCount : option Z;
  startedAt : option Z
}.

Record Streamer := {
  id : string;
  username : string;
  displayName : string;
  profileImageUrl : string;
  addedAt : Z;
  isLive : bool;
  currentStream : option CurrentStream
}.

(** The content of [streamers.json]. *)
Record Data := {
  streamers : list Streamer;
  lastNotified : gmap string Z
}.

(** The file itself: [None] while it does not exist. *)
Definition File := option Data.

Definition emptyData : Data :=
  {| streamers := []; lastNotified := ∅ |}.

Definition initStorage (file : File) : File :=
  match file with
  | None => Some emptyData
  | Some data => Some data
  end.

Definition readStorage (file : File) : Data * File :=
  let file := initStorage file in
  (default emptyData file, file).

Definition writeStorage (data : Data) (file : File) : File := Some data.

(** [s => s.id === streamerId] *)
Definition hasId (streamerId : string) (s : Streamer) : bool :=
  String.eqb (id s) streamerId.

Definition addStreamer (now : Z) (streamer : Twitch.User) (file : File)
  : bool * File :=
  let '(storage, file) := readStorage file in
  let exists_ := existsb (hasId (Twitch.id streamer)) (streamers storage) in
  if exists_ then (false, file)
  else
    let storage :=
      {| streamers := streamers storage ++
           [ {| id := Twitch.id streamer;
                username := Twitch.login streamer;
                displayName := Twitch.display_name streamer;
                profileImageUrl := Twitch.profile_image_url streamer;
                addedAt := now;
                isLive := false;
                currentStream := None |} ];
         lastNotified := lastNotified storage |} in
    (true, writeStorage storage file).

Definition removeStreamer (streamerId : string) (file : File)
  : bool * File :=
  let '(storage, file) := readStorage file in
  let initialLength := length (streamers storage) in
  let storage :=
    {| streamers :=
         List.filter (fun s => negb (hasId streamerId s)) (streamers storage);
       lastNotified := lastNotified storage |} in
  let storage :=
    match lastNotified storage !! streamerId with
    | Some _ =>
        {| streamers := streamers storage;
           lastNotified := delete streamerId (lastNotified storage) |}
    | None => storage
    end in
  let file := writeStorage storage file in
  (Nat.ltb (length (streamers storage)) initialLength, file).

Definition getAllStreamers (file : File) : list Streamer * File :=
  let '(storage, file) := readStorage file in
  (streamers storage, file).

(** The assignments that [updateStreamerStatus] makes to the record it
    found. *)
Definition setStatus (isLive : bool) (streamInfo : option Twitch.Stream)
    (streamer : Streamer) : Streamer :=
  {| id := id streamer;
     username := username streamer;
     displayName := displayName streamer;
     profileImageUrl := profileImageUrl streamer;
     addedAt := addedAt streamer;
     isLive := isLive;
     currentStream :=
       match isLive, streamInfo with
       | true, Some info =>
           Some {| title := Twitch.title info;
                   gameName := Twitch.game_name info;
                   thumbnailUrl := Twitch.thumbnail_url info;
                   viewerCount := Twitch.viewer_count info;
                   startedAt := Twitch.started_at info |}
       | _, _ => None
       end |}.

(** [find] returns the first record with the identifier, and the
    assignments are made to that record inside the array: [mutateFirst p f]
    applies [f] to the first element satisfying [p] and returns the new
    element with the new list. *)
Fixpoint mutateFirst {A} (p : A -> bool) (f : A -> A) (l : list A)
  : option A * list A :=
  match l with
  | [] => (None, [])
  | x :: l' =>
      if p x then (Some (f x), f x :: l')
      else let '(r, l'') := mutateFirst p f l' in (r, x :: l'')
  end.

Definition updateStreamerStatus (streamerId : string) (isLive : bool)
    (streamInfo : option Twitch.Stream) (file : File)
  : option Streamer * File :=
  let '(storage, file) := readStorage file in
  match mutateFirst (hasId streamerId) (setStatus isLive streamInfo)
          (streamers storage) with
  | (None, _) => (None, file)
  | (Some streamer, streamers') =>
      let storage :=
        {| streamers := streamers';
           lastNotified := lastNotified storage |} in
      (Some streamer, writeStorage storage file)
  end.

Definition shouldNotify (streamerId : string) (streamStartTime : option Z)
    (file : File) : bool * File :=
  let '(storage, file) := readStorage file in
  match lastNotified storage !! streamerId with
  | None => (true, file)
  | Some lastNotified =>
      let streamStart := newDate streamStartTime in
      let lastNotifyTime := newDate (Some lastNotified) in
      (date_gt streamStart lastNotifyTime, file)
  end.

Definition markNotified (now : Z) (streamerId : string) (file : File)
  : unit * File :=
  let '(storage, file) := readStorage file in
  let storage :=
    {| streamers := streamers storage;
       lastNotified := <[streamerId := now]> (lastNotified storage) |} in
  (tt, writeStorage storage file).

End Storage.

Import Storage.

(** ** twitch-api.js: the live lookup *)

(** What went wrong in a [try] block. *)
Inductive Error :=
  | FetchRejected                      (* the token or the request failed *)
  | BadStatus (statusText : string)    (* [!response.ok] *)
  | TypeError                          (* a method call on [undefined] *)
  | SendRejected                       (* [channel.send] rejected *)
  | Refused                            (* a builder of discord.js refused a value *)
  | StorageFault.                      (* [fs] or [JSON.parse] threw *)

(** The answer of [GET /helix/streams?user_id=...], as far as [checkIfLive]
    looks at it. *)
Inductive Response :=
  | NoResponse
  | NotOk (statusText : string)
  | Ok (data : list Twitch.Stream).

(** ** index.js: the sweep and the notification sink *)

(** One guild of [client.guilds.cache]: its name, the first text channel
    the bot may write to (if any), and whether [channel.send] resolves. *)
Record Guild := {
  guild_name : string;
  channel : option string;
  send_resolves : bool
}.

(** What one sweep reads from outside the process: the platform's answer
    for each user id, the reading of [new Date()] when [markNotified] runs
    for an id, the guilds the bot is in, and whether the builders of
    discord.js refuse one of the strings put into the embed of a
    notification (a title or a name that is too long, a profile image or a
    thumbnail that is not a URL). *)
Record Env := {
  helix_streams : string -> Response;
  clock : string -> Z;
  guilds : list Guild;
  embed_refused : Streamer -> Twitch.Stream -> bool
}.

(** What building the embed of a notification throws, if it throws: the
    builders refuse a string; [streamInfo.viewer_count.toString()] has no
    [viewer_count]; [setTimestamp(new Date(streamInfo.started_at))] is
    given an Invalid Date.  (With both a refused string and a missing
    [viewer_count] the error that comes first depends on the place of the
    string in the chain; the refusal is reported here.) *)
Definition embedThrows (env : Env) (streamer : Streamer)
    (streamInfo : Twitch.Stream) : option Error :=
  if embed_refused env streamer streamInfo then Some Refused
  else
    match Twitch.viewer_count streamInfo, Twitch.started_at streamInfo with
    | None, _ => Some TypeError
    | Some _, None => Some Refused
    | Some _, Some _ => None
    end.

Record Message := {
  to_guild : string;
  to_channel : string;
  streamUrl : string
}.

Inductive LogLine :=
  | LogChecking (n : nat)
  | LogFinished
  | LogErrorChecking (displayName : string) (e : Error)
  | LogErrorInCheckAll (e : Error)
  | LogNoChannel (guild : string)
  | LogSent (displayName guild : string)
  | LogErrorSending (guild : string) (e : Error)
  | LogErrorNotification (e : Error)
  | LogErrorStatus (e : Error).

(** The state a sweep acts on: the storage file, the messages delivered to
    Discord, the console, and the calls of [sendLiveNotification] made so
    far (by streamer id, oldest first). *)
Record World := {
  disk : File;
  outbox : list Message;
  console : list LogLine;
  dispatched : list string
}.

Definition set_disk (d : File) (w : World) : World :=
  {| disk := d; outbox := outbox w; console := console w;
     dispatched := dispatched w |}.

Definition add_message (m : Message) (w : World) : World :=
  {| disk := disk w; outbox := outbox w ++ [m]; console := console w;
     dispatched := dispatched w |}.

Definition add_log (l : LogLine) (w : World) : World :=
  {| disk := disk w; outbox := outbox w; console := console w ++ [l];
     dispatched := dispatched w |}.

Definition add_dispatch (streamerId : string) (w : World) : World :=
  {| disk := disk w; outbox := outbox w; console := console w;
     dispatched := dispatched w ++ [streamerId] |}.

(** A computation that may change the world and either returns or throws;
    what it did before it threw stays done. *)
Inductive Completion (A : Type) :=
  | Normal (a : A)
  | Throw (e : Error).
Arguments Normal {A} a.
Arguments Throw {A} e.

Definition Async (A : Type) : Type := World -> Completion A * World.

Definition ret {A} (a : A) : Async A := fun w => (Normal a, w).

Definition bind {A B} (m : Async A) (k : A -> Async B) : Async B :=
  fun w =>
    match m w with
    | (Normal a, w') => k a w'
    | (Throw e, w') => (Throw e, w')
    end.

Definition throw {A} (e : Error) : Async A := fun w => (Throw e, w).

Definition tryCatch (body : Async unit) (handler : Error -> Async unit)
  : Async unit :=
  fun w =>
    match body w with
    | (Normal a, w') => (Normal a, w')
    | (Throw e, w') => handler e w'
    end.

(** A call of a [storage.js] function. *)
Definition storage {A} (f : File -> A * File) : Async A :=
  fun w => let '(a, d) := f (disk w) in (Normal a, set_disk d w).

Definition console_log (l : LogLine) : Async unit :=
  fun w => (Normal tt, add_log l w).

Declare Scope async_scope.
Delimit Scope async_scope with async.
Notation "x <- m ;; k" := (bind m (fun x => k))
  (at level 100, m at next level, right associativity) : async_scope.
Notation "m ;; k" := (bind m (fun _ => k))
  (at level 100, right associativity) : async_scope.
Local Open Scope async_scope.

(** [for (const x of l) body] *)
Fixpoint forOf {A} (l : list A) (body : A -> Async unit) : Async unit :=
  match l with
  | [] => ret tt
  | x :: l' => body x ;; forOf l' body
  end.

(** [checkIfLive] of [twitch-api.js]: it rethrows what the token or the
    request threw, throws on a status that is not ok, and otherwise returns
    the first element of [data], or [null] when there is none. *)
Definition checkIfLive (env : Env) (userId : string)
  : Async (option Twitch.Stream) :=
  match helix_streams env userId with
  | NoResponse => throw FetchRejected
  | NotOk statusText => throw (BadStatus statusText)
  | Ok data =>
      match data with
      | stream :: _ => ret (Some stream)
      | [] => ret None
      end
  end.

(** [sendLiveNotification]: the call is recorded in [dispatched]; each
    guild has its own [try], inside the [try] of the whole function. *)
Definition sendLiveNotification (env : Env) (streamer : Streamer)
    (streamInfo : Twitch.Stream) : Async unit :=
  (fun w => (Normal tt, add_dispatch (id streamer) w)) ;;
  tryCatch
    (forOf (guilds env) (fun guild =>
       tryCatch
         (match channel guild with
          | None => console_log (LogNoChannel (guild_name guild))
          | Some channel =>
              let streamUrl := "https://twitch.tv/" +:+ username streamer in
              (* the embed *)
              match embedThrows env streamer streamInfo with
              | Some error => throw error
              | None => ret tt
              end ;;
              (if send_resolves guild
               then fun w =>
                      (Normal tt,
                       add_message {| to_guild := guild_name guild;
                                      to_channel := channel;
                                      streamUrl := streamUrl |} w)
               else throw SendRejected) ;;
              console_log (LogSent (displayName streamer) (guild_name guild))
          end)
         (fun error => console_log (LogErrorSending (guild_name guild) error))))
    (fun error => console_log (LogErrorNotification error)).

(** The [try] block in the loop of [checkAllStreamers]. *)
Definition checkStreamerTry (env : Env) (streamer : Streamer) : Async unit :=
  streamInfo <- checkIfLive env (id streamer) ;;
  let wasLive := isLive streamer in
  let isLive := bool_decide (is_Some streamInfo) in
  storage (updateStreamerStatus (id streamer) isLive streamInfo) ;;
  match streamInfo with
  | Some streamInfo =>
      if negb wasLive then
        notify <- storage (shouldNotify (id streamer)
                             (Twitch.started_at streamInfo)) ;;
        if notify : bool then
          sendLiveNotification env streamer streamInfo ;;
          storage (markNotified (clock env (id streamer)) (id streamer))
        else ret tt
      else ret tt
  | None => ret tt
  end.

(** The body of the loop: the [try] block and its [catch]. *)
Definition checkStreamer (env : Env) (streamer : Streamer) : Async unit :=
  tryCatch (checkStreamerTry env streamer)
    (fun error => console_log (LogErrorChecking (displayName streamer) error)).

(** [checkAllStreamers]: the list is read once, before the loop; each
    iteration tests the [isLive] of the record in that list. *)
Definition checkAllStreamers (env : Env) : Async unit :=
  tryCatch
    (streamers <- storage getAllStreamers ;;
     if Nat.eqb (length streamers) 0 then ret tt
     else
       console_log (LogChecking (length streamers)) ;;
       forOf streamers (checkStreamer env) ;;
       console_log LogFinished)
    (fun error => console_log (LogErrorInCheckAll error)).

Local Close Scope async_scope.

(** The world after a computation. *)
Definition after {A} (m : Async A) (w : World) : World := snd (m w).

(** How many times [sendLiveNotification] has been called for an id. *)
Definition notifications (streamerId : string) (w : World) : nat :=
  length (List.filter (String.eqb streamerId) (dispatched w)).

(** Several sweeps in a row, each with what it reads from outside. *)
Definition sweeps (envs : list Env) (w : World) : World :=
  fold_left (fun w env => after (checkAllStreamers env) w) envs w.

(** ** index.js: the sweep when the storage fails *)

(** The call of [storage.js] that throws in an iteration, if one does
    ([fs.readFileSync], [JSON.parse] or [fs.writeFileSync] threw).  A call
    that throws is taken to leave the file as it was. *)
Inductive Fault :=
  | NoFault
  | FaultInUpdate           (* [updateStreamerStatus] throws *)
  | FaultInShouldNotify     (* [shouldNotify] throws *)
  | FaultInMarkNotified.    (* [markNotified] throws *)

Definition inUpdate (fault : Fault) : bool :=
  match fault with FaultInUpdate => true | _ => false end.

Definition inShouldNotify (fault : Fault) : bool :=
  match fault with FaultInShouldNotify => true | _ => false end.

Definition inMarkNotified (fault : Fault) : bool :=
  match fault with FaultInMarkNotified => true | _ => false end.

(** A call of a [storage.js] function that throws if [faulty]. *)
Definition storageUnless (faulty : bool) {A} (f : File -> A * File)
  : Async A :=
  if faulty then throw StorageFault else storage f.

Local Open Scope async_scope.

(** The [try] block of the loop, as [checkStreamerTry], with the storage
    call named by [fault] throwing when it is reached. *)
Definition checkStreamerTryUnder (fault : Fault) (env : Env)
    (streamer : Streamer) : Async unit :=
  streamInfo <- checkIfLive env (id streamer) ;;
  let wasLive := isLive streamer in
  let isLive := bool_decide (is_Some streamInfo) in
  storageUnless (inUpdate fault)
    (updateStreamerStatus (id streamer) isLive streamInfo) ;;
  match streamInfo with
  | Some streamInfo =>
      if negb wasLive then
        notify <- storageUnless (inShouldNotify fault)
                    (shouldNotify (id streamer)
                       (Twitch.started_at streamInfo)) ;;
        if notify : bool then
          sendLiveNotification env streamer streamInfo ;;
          storageUnless (inMarkNotified fault)
            (markNotified (clock env (id streamer)) (id streamer))
        else ret tt
      else ret tt
  | None => ret tt
  end.

Definition checkStreamerUnder (fault : Fault) (env : Env)
    (streamer : Streamer) : Async unit :=
  tryCatch (checkStreamerTryUnder fault env streamer)
    (fun error => console_log (LogErrorChecking (displayName streamer) error)).

(** [checkAllStreamers] with, for each identifier, the storage call that
    throws in its iteration (the list itself is read without fault). *)
Definition checkAllStreamersUnder (faults : string -> Fault) (env : Env)
  : Async unit :=
  tryCatch
    (streamers <- storage getAllStreamers ;;
     if Nat.eqb (length streamers) 0 then ret tt
     else
       console_log (LogChecking (length streamers)) ;;
       forOf streamers
         (fun streamer => checkStreamerUnder (faults (id streamer)) env streamer) ;;
       console_log LogFinished)
    (fun error => console_log (LogErrorInCheckAll error)).

Local Close Scope async_scope.

(** ** twitch-api.js: the access token, the lookups and the links *)

Module TwitchApi.

(** What a function of [twitch-api.js] throws: a rejected [fetch] or
    [response.json()], or the [Error] made for a status that is not ok. *)
Inductive ApiError :=
  | Rejected
  | TokenStatus (statusText : string)    (* Failed to get access token *)
  | UserStatus (statusText : string)     (* Failed to get user info *)
  | StreamStatus (statusText : string).  (* Failed to check stream status *)

Inductive Result (A : Type) :=
  | Returned (a : A)
  | Threw (e : ApiError).
Arguments Returned {A} a.
Arguments Threw {A} e.

(** The answer of [POST id.twitch.tv/oauth2/token]; a field of the body may
    be missing.  [expires_in] is a number of seconds. *)
Inductive TokenAnswer :=
  | TokenNoAnswer
  | TokenNotOk (statusText : string)
  | TokenOk (access_token : option string) (expires_in : option Z).

(** The answer of [GET /helix/users?login=...]. *)
Inductive UsersAnswer :=
  | UsersNoAnswer
  | UsersNotOk (statusText : string)
  | UsersOk (data : list Twitch.User).

(** A request made, with the token of its [Authorization] header. *)
Inductive Request :=
  | PostToken
  | GetUsers (login : string) (bearer : option string)
  | GetStreams (user_id : string) (bearer : option string).

(** What the module reads from outside: the [k]-th reading of [Date.now()]
    and the answer to a request that is the [k]-th one made. *)
Record Internet := {
  Date_now : nat -> Z;
  token_answer : nat -> TokenAnswer;
  users_answer : nat -> string -> UsersAnswer;
  streams_answer : nat -> string -> Response
}.

(** The state of the module: the two variables of the token cache
    ([tokenExpiry] is [None] for [null] and for NaN, which are both falsy
    and never compared), and what it has read and asked so far. *)
Record Client := {
  accessToken : option string;
  tokenExpiry : option Z;
  clockReads : nat;
  requests : list Request
}.

Definition Api (A : Type) : Type := Internet -> Client -> Result A * Client.

Definition ret {A} (a : A) : Api A := fun _ c => (Returned a, c).

Definition bind {A B} (m : Api A) (k : A -> Api B) : Api B :=
  fun net c =>
    match m net c with
    | (Returned a, c') => k a net c'
    | (Threw e, c') => (Threw e, c')
    end.

Definition throw {A} (e : ApiError) : Api A := fun _ c => (Threw e, c).

Declare Scope api_scope.
Delimit Scope api_scope with api.
Notation "x <- m ;; k" := (bind m (fun x => k))
  (at level 100, m at next level, right associativity) : api_scope.
Notation "m ;; k" := (bind m (fun _ => k))
  (at level 100, right associativity) : api_scope.
Local Open Scope api_scope.

(** [Date.now()] *)
Definition dateNow : Api Z :=
  fun net c =>
    (Returned (Date_now net (clockReads c)),
     {| accessToken := accessToken c; tokenExpiry := tokenExpiry c;
        clockReads := S (clockReads c); requests := requests c |}).

(** [await fetch(...)], up to the parsed body. *)
Definition fetch {A} (request : Request) (answer : Internet -> nat -> A)
  : Api A :=
  fun net c =>
    (Returned (answer net (length (requests c))),
     {| accessToken := accessToken c; tokenExpiry := tokenExpiry c;
        clockReads := clockReads c; requests := requests c ++ [request] |}).

Definition setToken (token : option string) : Api unit :=
  fun _ c =>
    (Returned tt,
     {| accessToken := token; tokenExpiry := tokenExpiry c;
        clockReads := clockReads c; requests := requests c |}).

Definition setExpiry (expiry : option Z) : Api unit :=
  fun _ c =>
    (Returned tt,
     {| accessToken := accessToken c; tokenExpiry := expiry;
        clockReads := clockReads c; requests := requests c |}).

(** A string is truthy unless it is missing or empty; a number unless it
    is missing (or NaN) or zero. *)
Definition truthyString (v : option string) : bool :=
  match v with
  | Some (String _ _) => true
  | _ => false
  end.

Definition truthyNumber (v : option Z) : bool :=
  match v with
  | Some n => negb (n =? 0)
  | None => false
  end.

Definition getAccessToken : Api (option string) :=
  fun net c =>
    (valid <-
       (if truthyString (accessToken c) && truthyNumber (tokenExpiry c)
        then now <- dateNow ;;
             ret (match tokenExpiry c with
                  | Some expiry => now <? expiry
                  | None => false
                  end)
        else ret false) ;;
     if valid : bool then ret (accessToken c)
     else
       answer <- fetch PostToken token_answer ;;
       match answer with
       | TokenNoAnswer => throw Rejected
       | TokenNotOk statusText => throw (TokenStatus statusText)
       | TokenOk access_token expires_in =>
           setToken access_token ;;
           now <- dateNow ;;
           setExpiry (match expires_in with
                      | Some seconds => Some (now + (seconds - 60) * 1000)
                      | None => None
                      end) ;;
           ret access_token
       end) net c.

(** The result of [new URL(url)], as far as it is looked at. *)
Record URL := {
  hostname : string;
  pathname : string
}.

(** [s.split(sep)] for a separator of one character. *)
Fixpoint split (sep : Ascii.ascii) (s : string) : list string :=
  match s with
  | EmptyString => [EmptyString]
  | String c s' =>
      if Ascii.eqb c sep then EmptyString :: split sep s'
      else match split sep s' with
           | part :: parts => String c part :: parts
           | [] => [String c EmptyString]
           end
  end.

(** [toLowerCase] on the characters of a path name, which [URL] leaves in
    ASCII (everything else is percent-encoded). *)
Definition lowerAscii (c : Ascii.ascii) : Ascii.ascii :=
  let n := Ascii.nat_of_ascii c in
  if (Nat.leb 65 n && Nat.leb n 90)%bool then Ascii.ascii_of_nat (n + 32)
  else c.

Fixpoint toLowerCase (s : string) : string :=
  match s with
  | EmptyString => EmptyString
  | String c s' => String (lowerAscii c) (toLowerCase s')
  end.

(** The character ['/']. *)
Definition slash : Ascii.ascii := Ascii.ascii_of_nat 47.

(** [part => part] as a filter: the string is not empty. *)
Definition nonEmpty (part : string) : bool :=
  match part with
  | EmptyString => false
  | String _ _ => true
  end.

(** [newURL] is [new URL]: [None] where it throws. *)
Definition extractUsernameFromUrl (newURL : string -> option URL)
    (url : string) : option string :=
  match newURL url with
  | None => None
  | Some twitchUrl =>
      if (String.eqb (hostname twitchUrl) "twitch.tv"
          || String.eqb (hostname twitchUrl) "www.twitch.tv")%bool
      then
        let pathParts :=
          List.filter nonEmpty (split slash (pathname twitchUrl)) in
        match pathParts with
        | part :: _ => Some (toLowerCase part)
        | [] => None
        end
      else None
  end.

Definition getUserByUsername (username : string) : Api (option Twitch.User) :=
  token <- getAccessToken ;;
  answer <- fetch (GetUsers username token)
              (fun net k => users_answer net k username) ;;
  match answer with
  | UsersNoAnswer => throw Rejected
  | UsersNotOk statusText => throw (UserStatus statusText)
  | UsersOk data =>
      match data with
      | user :: _ => ret (Some user)
      | [] => ret None
      end
  end.

Definition checkIfLive (userId : string) : Api (option Twitch.Stream) :=
  token <- getAccessToken ;;
  answer <- fetch (GetStreams userId token)
              (fun net k => streams_answer net k userId) ;;
  match answer with
  | NoResponse => throw Rejected
  | NotOk statusText => throw (StreamStatus statusText)
  | Ok data =>
      match data with
      | stream :: _ => ret (Some stream)
      | [] => ret None
      end
  end.

Record StreamerInfo := {
  user : Twitch.User;
  stream : option Twitch.Stream;
  isLive : bool
}.

Definition getStreamerInfo (newURL : string -> option URL) (url : string)
  : Api (option StreamerInfo) :=
  match extractUsernameFromUrl newURL url with
  | None => ret None
  | Some username =>
      if nonEmpty username then
        user <- getUserByUsername username ;;
        match user with
        | None => ret None
        | Some user =>
            streamInfo <- checkIfLive (Twitch.id user) ;;
            ret (Some {| user := user;
                         stream := streamInfo;
                         isLive := bool_decide (is_Some streamInfo) |})
        end
      else ret None
  end.

Local Close Scope api_scope.

(** The client after one more request. *)
Definition asked (request : Request) (c : Client) : Client :=
  {| accessToken := accessToken c; tokenExpiry := tokenExpiry c;
     clockReads := clockReads c; requests := requests c ++ [request] |}.

End TwitchApi.

(** ** index.js: the command handlers *)

(** What a handler answers with [interaction.editReply]. *)
Record LiveField := {
  field_name : string;
  field_url : string;
  field_stream : option (option string * option Z)
}.

Inductive Reply :=
  | ReplyNoSuchLink
  | ReplyAdded (display_name login : string) (currentlyLive : bool)
  | ReplyAlreadyMonitored (display_name : string)
  | ReplyAddFailed
  | ReplyNoSuchStreamer (username : string)
  | ReplyRemoved (displayName : string)
  | ReplyRemoveFailed (displayName : string)
  | ReplyNoStreamers
  | ReplyList (fields : list (string * string * bool))
  | ReplyListFailed
  | ReplyChecking
  | ReplyNoneLive
  | ReplyLive (total : nat) (fields : list LiveField)
  | ReplyStatusFailed.

(** What Discord and the builders of discord.js do with the calls of one
    interaction: whether [deferReply] resolves and, for each answer, what
    building its embed (if it has one) and [editReply] throw, if they
    throw: the builders refuse a string (a thumbnail that is not a URL, a
    name or a value that is empty or too long), or the request is
    rejected. *)
Record Interaction := {
  deferReply_resolves : bool;
  editReply_throws : Reply -> option Error
}.

(** An embed takes 25 fields; [addFields] throws on the next one. *)
Definition withinLimits (reply : Reply) : bool :=
  match reply with
  | ReplyList fields => (length fields <=? 25)%nat
  | ReplyLive _ fields => (length fields <=? 25)%nat
  | _ => true
  end.

(** Building the embed of [reply], if it has one, and
    [await interaction.editReply(reply)]: what is thrown, [None] when the
    answer is shown. *)
Definition editReply (interaction : Interaction) (reply : Reply)
  : option Error :=
  if withinLimits reply then editReply_throws interaction reply
  else Some Refused.

Definition shown (interaction : Interaction) (reply : Reply) : bool :=
  match editReply interaction reply with
  | None => true
  | Some _ => false
  end.

(** An answer given in the [try] of a handler whose [catch] answers
    [failure]: what the interaction shows in the end.  When the answer of
    the [catch] is not shown either the handler rejects; the interaction
    is deferred, so the dispatcher only logs the error. *)
Definition answer (interaction : Interaction) (failure reply : Reply)
  : option Reply :=
  match editReply interaction reply with
  | None => Some reply
  | Some _ =>
      match editReply interaction failure with
      | None => Some failure
      | Some _ => None
      end
  end.

(** [/tuadd]: [now] is the reading of [new Date()] in [addStreamer].  The
    result has the answer that the interaction shows in the end, if any.
    When [deferReply] rejects the handler does nothing else.  (The
    [console.error] of the [catch] is not represented.) *)
Definition handleAddCommand (newURL : string -> option TwitchApi.URL)
    (interaction : Interaction)
    (net : TwitchApi.Internet) (now : Z) (streamLink : string)
    (client : TwitchApi.Client) (file : File)
  : option Reply * TwitchApi.Client * File :=
  if deferReply_resolves interaction then
    match TwitchApi.getStreamerInfo newURL streamLink net client with
    | (TwitchApi.Threw _, client) =>
        (match editReply interaction ReplyAddFailed with
         | None => Some ReplyAddFailed
         | Some _ => None
         end, client, file)
    | (TwitchApi.Returned None, client) =>
        (answer interaction ReplyAddFailed ReplyNoSuchLink, client, file)
    | (TwitchApi.Returned (Some streamerInfo), client) =>
        let '(added, file) :=
          addStreamer now (TwitchApi.user streamerInfo) file in
        if added : bool then
          (answer interaction ReplyAddFailed
             (ReplyAdded (Twitch.display_name (TwitchApi.user streamerInfo))
                (Twitch.login (TwitchApi.user streamerInfo))
                (TwitchApi.isLive streamerInfo)),
           client, file)
        else
          (answer interaction ReplyAddFailed
             (ReplyAlreadyMonitored
                (Twitch.display_name (TwitchApi.user streamerInfo))),
           client, file)
    end
  else (None, client, file).

(** [/turemove]: [toLowerCase] is the method of JavaScript strings, applied
    here to what the user typed and to the stored user names; nothing is
    assumed of it.  The calls of the interaction are taken to succeed
    here; the storage functions do not throw, so the [catch] of the
    handler is not reached. *)
Definition handleRemoveCommand (toLowerCase : string -> string)
    (option_username : string) (file : File) : Reply * File :=
  let username := toLowerCase option_username in
  let '(streamers, file) := getAllStreamers file in
  match List.find
          (fun s => String.eqb (toLowerCase (Storage.username s)) username)
          streamers with
  | None => (ReplyNoSuchStreamer username, file)
  | Some streamer =>
      let '(removed, file) := removeStreamer (id streamer) file in
      if removed : bool then (ReplyRemoved (displayName streamer), file)
      else (ReplyRemoveFailed (displayName streamer), file)
  end.

(** [/tulist] *)
Definition handleListCommand (interaction : Interaction) (file : File)
  : option Reply * File :=
  if deferReply_resolves interaction then
    let '(streamers, file) := getAllStreamers file in
    if Nat.eqb (length streamers) 0
    then (answer interaction ReplyListFailed ReplyNoStreamers, file)
    else
      (answer interaction ReplyListFailed
         (ReplyList
            (map (fun streamer =>
                    (displayName streamer, Storage.username streamer,
                     isLive streamer))
               streamers)),
       file)
  else (None, file).

(** The field of the status embed for a live streamer. *)
Definition liveField (streamer : Streamer) : LiveField :=
  {| field_name := displayName streamer;
     field_url := "https://twitch.tv/" +:+ Storage.username streamer;
     field_stream :=
       match currentStream streamer with
       | Some current => Some (gameName current, viewerCount current)
       | None => None
       end |}.

(** The [catch] of [/tustatus], reached with the answers [before] shown. *)
Definition statusCaught (interaction : Interaction) (error : Error)
    (before : list Reply) (w : World) : list Reply * World :=
  (before ++ match editReply interaction ReplyStatusFailed with
             | None => [ReplyStatusFailed]
             | Some _ => []
             end,
   add_log (LogErrorStatus error) w).

(** [/tustatus]: the answers that the interaction shows, in order, and the
    world it leaves.  When [deferReply] rejects the handler does nothing
    else; when an answer is not shown what remains of the [try] is
    skipped, so no sweep runs if it is the first one. *)
Definition handleStatusCommand (interaction : Interaction) (env : Env)
    (w : World) : list Reply * World :=
  if deferReply_resolves interaction then
    let '(streamers, file) := getAllStreamers (disk w) in
    let w := set_disk file w in
    if Nat.eqb (length streamers) 0 then
      match editReply interaction ReplyNoStreamers with
      | None => ([ReplyNoStreamers], w)
      | Some error => statusCaught interaction error [] w
      end
    else
      match editReply interaction ReplyChecking with
      | Some error => statusCaught interaction error [] w
      | None =>
          match checkAllStreamers env w with
          | (Throw error, w) =>
              statusCaught interaction error [ReplyChecking] w
          | (Normal _, w) =>
              let '(updatedStreamers, file) := getAllStreamers (disk w) in
              let w := set_disk file w in
              let liveStreamers := List.filter isLive updatedStreamers in
              if Nat.eqb (length liveStreamers) 0 then
                match editReply interaction ReplyNoneLive with
                | None => ([ReplyChecking; ReplyNoneLive], w)
                | Some error =>
                    statusCaught interaction error [ReplyChecking] w
                end
              else
                let reply :=
                  ReplyLive (length updatedStreamers)
                    (map liveField liveStreamers) in
                match editReply interaction reply with
                | None => ([ReplyChecking; reply], w)
                | Some error =>
                    statusCaught interaction error [ReplyChecking] w
                end
          end
      end
  else ([], w).

(** ** Notions used in the statements *)

(** What the storage functions see in a file. *)
Definition data_of (file : File) : Data := fst (readStorage file).

Definition ids (data : Data) : list string := map id (streamers data).

Definition ledger (w : World) : gmap string Z :=
  lastNotified (data_of (disk w)).

(** The record stored for an identifier (the first one, as [find] has it). *)
Definition stored (streamerId : string) (data : Data) : option Streamer :=
  List.find (hasId streamerId) (streamers data).

(** The operations of the entity store. *)
Inductive Op :=
  | Add (now : Z) (streamer : Twitch.User)
  | Remove (streamerId : string)
  | SetLiveState (streamerId : string) (isLive : bool)
      (streamInfo : option Twitch.Stream).

Definition applyOp (file : File) (op : Op) : File :=
  match op with
  | Add now streamer => snd (addStreamer now streamer file)
  | Remove streamerId => snd (removeStreamer streamerId file)
  | SetLiveState streamerId isLive streamInfo =>
      snd (updateStreamerStatus streamerId isLive streamInfo file)
  end.

Definition runOps (ops : list Op) (file : File) : File :=
  fold_left applyOp ops file.

(** A record carries [currentStream] exactly when it is live. *)
Definition metadataIffLive (s : Streamer) : Prop :=
  is_Some (currentStream s) <-> isLive s = true.

(** A [SetLiveState] that says live brings the stream it saw. *)
Definition liveWithMetadata (op : Op) : Prop :=
  match op with
  | SetLiveState _ true None => False
  | _ => True
  end.

(** The decision of [shouldNotify], on the ledger entry of the identifier
    and the session start of the snapshot. *)
Definition decision (last : option Z) (streamStartTime : option Z) : bool :=
  match last with
  | None => true
  | Some lastNotified =>
      date_gt (newDate streamStartTime) (newDate (Some lastNotified))
  end.

(** The lookup failed: [checkIfLive] throws. *)
Definition failed (r : Response) : bool :=
  match r with
  | Ok _ => false
  | _ => true
  end.

(** What a sweep is expected to do to one watched entity: its stored
    record, its ledger entry and the number of notifications sent for it,
    given the answer for it and the clock reading at [markNotified]. *)
Definition Entity : Type := Streamer * option Z * nat.

Definition entityStep (r : Response) (now : Z) (e : Entity) : Entity :=
  let '(s, last, n) := e in
  match r with
  | NoResponse | NotOk _ => e
  | Ok [] => (setStatus false None s, last, n)
  | Ok (streamInfo :: _) =>
      let s' := setStatus true (Some streamInfo) s in
      if negb (isLive s) && decision last (Twitch.started_at streamInfo)
      then (s', Some now, S n)
      else (s', last, n)
  end.

(** The watched entity with an identifier, as the world has it. *)
Definition entityOf (streamerId : string) (w : World) : option Entity :=
  match stored streamerId (data_of (disk w)) with
  | Some s => Some (s, ledger w !! streamerId, notifications streamerId w)
  | None => None
  end.

(** The message a guild receives for a notification, if it receives one:
    it has a channel, the embed could be built and the send resolved. *)
Definition delivered (env : Env) (streamer : Streamer)
    (streamInfo : Twitch.Stream) (guild : Guild) : list Message :=
  match channel guild, embedThrows env streamer streamInfo,
        send_resolves guild with
  | Some channel, None, true =>
      [ {| to_guild := guild_name guild;
           to_channel := channel;
           streamUrl := "https://twitch.tv/" +:+ username streamer |} ]
  | _, _, _ => []
  end.

(** The part of the world that the statements about sweeps speak of: the
    content of the file, the notifications sent and the messages delivered
    (the console is left out). *)
Definition Visible : Type := Data * list string * list Message.

Definition visible (w : World) : Visible :=
  (data_of (disk w), dispatched w, outbox w).

(** The stream that the lookup for a record shows, if it shows one. *)
Definition seen (env : Env) (s : Streamer) : option Twitch.Stream :=
  match helix_streams env (id s) with
  | Ok (streamInfo :: _) => Some streamInfo
  | _ => None
  end.

(** Whether the iteration for the record [s] of the list read at the start
    of the sweep sends a notification, when the file holds [d]. *)
Definition notifies (env : Env) (s : Streamer) (d : Data) : bool :=
  match seen env s with
  | Some streamInfo =>
      negb (isLive s) &&
      decision (lastNotified d !! id s) (Twitch.started_at streamInfo)
  | None => false
  end.

(** One iteration of the loop of [checkAllStreamers], on what is visible. *)
Definition iterate (env : Env) (v : Visible) (s : Streamer) : Visible :=
  let '(d, sent, out) := v in
  if failed (helix_streams env (id s)) then v
  else
    ({| streamers :=
          snd (mutateFirst (hasId (id s))
                 (setStatus (bool_decide (is_Some (seen env s))) (seen env s))
                 (streamers d));
        lastNotified :=
          if notifies env s d
          then <[id s := clock env (id s)]> (lastNotified d)
          else lastNotified d |},
     sent ++ (if notifies env s d then [id s] else []),
     out ++ (if notifies env s d
             then match seen env s with
                  | Some streamInfo =>
                      flat_map (delivered env s streamInfo) (guilds env)
                  | None => []
                  end
             else [])).

(** One iteration of the loop under a fault, on what is visible. *)
Definition iterateUnder (fault : Fault) (env : Env) (v : Visible)
    (s : Streamer) : Visible :=
  let '(d, sent, out) := v in
  if failed (helix_streams env (id s)) || inUpdate fault then v
  else
    let notify := notifies env s d && negb (inShouldNotify fault) in
    ({| streamers :=
          snd (mutateFirst (hasId (id s))
                 (setStatus (bool_decide (is_Some (seen env s))) (seen env s))
                 (streamers d));
        lastNotified :=
          if notify && negb (inMarkNotified fault)
          then <[id s := clock env (id s)]> (lastNotified d)
          else lastNotified d |},
     sent ++ (if notify then [id s] else []),
     out ++ (if notify
             then match seen env s with
                  | Some streamInfo =>
                      flat_map (delivered env s streamInfo) (guilds env)
                  | None => []
                  end
             else [])).

(** What a sweep does to one watched entity when the storage call
    [fault] throws in its iteration: nothing if the lookup failed or the
    update threw; otherwise the record is refreshed, the notification is
    sent unless [shouldNotify] threw, and the ledger is written unless
    [markNotified] threw. *)
Definition entityStepUnder (fault : Fault) (r : Response) (now : Z)
    (e : Entity) : Entity :=
  let '(s, last, n) := e in
  if failed r || inUpdate fault then e
  else
    match r with
    | NoResponse | NotOk _ => e
    | Ok [] => (setStatus false None s, last, n)
    | Ok (streamInfo :: _) =>
        let s' := setStatus true (Some streamInfo) s in
        if negb (isLive s) && decision last (Twitch.started_at streamInfo)
           && negb (inShouldNotify fault)
        then (s', if inMarkNotified fault then last else Some now, S n)
        else (s', last, n)
    end.

(** The watched entity with an identifier, in what is visible. *)
Definition entityIn (streamerId : string) (v : Visible) : option Entity :=
  let '(d, sent, _) := v in
  match stored streamerId d with
  | Some s =>
      Some (s, lastNotified d !! streamerId,
            length (List.filter (String.eqb streamerId) sent))
  | None => None
  end.

(** What a run of sweeps is expected to do to one watched entity. *)
Definition entitySteps (streamerId : string) (envs : list Env) (e : Entity)
  : Entity :=
  fold_left
    (fun e env =>
       entityStep (helix_streams env streamerId) (clock env streamerId) e)
    envs e.

(** Every ledger entry belongs to a watched identifier. *)
Definition ledgerWatched (d : Data) : Prop :=
  forall k, is_Some (lastNotified d !! k) -> k ∈ ids d.

(** The fields of a stored record that [/tuadd] wrote. *)
Definition identity (s : Streamer) : string * string * string * string * Z :=
  (id s, username s, displayName s, profileImageUrl s, addedAt s).

(** What happens to the bot, one thing after the other: a call of the
    store, or a sweep. *)
Inductive Event :=
  | Command (op : Op)
  | Tick (env : Env).

Definition happen (w : World) (e : Event) : World :=
  match e with
  | Command op => set_disk (applyOp (disk w) op) w
  | Tick env => after (checkAllStreamers env) w
  end.

Definition history (events : list Event) (w : World) : World :=
  fold_left happen events w.

(** The commands of an event list satisfy [P]. *)
Definition commandsSatisfy (P : Op -> Prop) (e : Event) : Prop :=
  match e with
  | Command op => P op
  | Tick _ => True
  end.

(** The bot before anything happened: no file, nothing sent. *)
Definition freshWorld : World :=
  {| disk := None; outbox := []; console := []; dispatched := [] |}.

(** The test at the top of [getAccessToken]: the cached token can be used. *)
Definition cacheValid (net : TwitchApi.Internet) (c : TwitchApi.Client)
  : bool :=
  TwitchApi.truthyString (TwitchApi.accessToken c) &&
  TwitchApi.truthyNumber (TwitchApi.tokenExpiry c) &&
  match TwitchApi.tokenExpiry c with
  | Some expiry => TwitchApi.Date_now net (TwitchApi.clockReads c) <? expiry
  | None => false
  end.

(** No request for streams is in a list of requests. *)
Definition noStreamsRequest (l : list TwitchApi.Request) : Prop :=
  forall userId bearer, TwitchApi.GetStreams userId bearer ∉ l.

(** ** Concrete data for the examples *)

Definition alice : Twitch.User :=
  {| Twitch.id := "123"; Twitch.login := "alice";
     Twitch.display_name := "Alice";
     Twitch.profile_image_url := "https://static-cdn.jtvnw.net/alice.png" |}.

(** A stream whose session started at [t], and the answer that shows it. *)
Definition streamSince (t : Z) : Twitch.Stream :=
  {| Twitch.title := Some "speedrun"; Twitch.game_name := Some "Chess";
     Twitch.thumbnail_url := None; Twitch.viewer_count := Some 3;
     Twitch.started_at := Some t |}.

Definition liveSince (t : Z) : Response := Ok [streamSince t].

(** A live snapshot without [started_at]. *)
Definition liveUndated : Twitch.Stream :=
  {| Twitch.title := Some "speedrun"; Twitch.game_name := Some "Chess";
     Twitch.thumbnail_url := None; Twitch.viewer_count := Some 3;
     Twitch.started_at := None |}.

Definition offline : Response := Ok [].

Definition theGuild : Guild :=
  {| guild_name := "home"; channel := Some "general"; send_resolves := true |}.

Definition deafGuild : Guild :=
  {| guild_name := "away"; channel := Some "general"; send_resolves := false |}.

(** A sweep in which every lookup answers [r] and the clock reads [now]. *)
Definition sweepEnv (r : Response) (now : Z) : Env :=
  {| helix_streams := fun _ => r; clock := fun _ => now;
     guilds := [theGuild];
     embed_refused := fun _ _ => false |}.

(** The world after [/tuadd] of alice at time 1, nothing sent yet. *)
Definition aliceWatched : World :=
  {| disk := snd (addStreamer 1 alice None);
     outbox := []; console := []; dispatched := [] |}.

(** 2024-01-01T00:00:00Z *)
Definition newYear : Z := 1704067200000.

(** A ledger entry for an identifier that is not watched. *)
Definition orphanLedger : File :=
  Some {| streamers := []; lastNotified := {[ "123" := newYear ]} |}.

Definition bob : Twitch.User :=
  {| Twitch.id := "456"; Twitch.login := "bob";
     Twitch.display_name := "Bob";
     Twitch.profile_image_url := "https://static-cdn.jtvnw.net/bob.png" |}.

(** The world after [/tuadd] of alice and then of bob. *)
Definition bothWatched : World :=
  {| disk := snd (addStreamer 2 bob (snd (addStreamer 1 alice None)));
     outbox := []; console := []; dispatched := [] |}.

(** A sweep in which the lookup for alice is rejected and bob is live. *)
Definition aliceUnreachable : Env :=
  {| helix_streams :=
       fun a => if String.eqb a "123" then NoResponse else liveSince newYear;
     clock := fun _ => newYear + 60000;
     guilds := [theGuild; deafGuild];
     embed_refused := fun _ _ => false |}.

(** The record that [/tuadd] stored for alice. *)
Definition aliceRecord : Streamer :=
  {| id := "123"; username := "alice"; displayName := "Alice";
     profileImageUrl := "https://static-cdn.jtvnw.net/alice.png";
     addedAt := 1; isLive := false;
     currentStream := None |}.

(** A sweep in which alice is live and no guild accepts a message. *)
Definition nobodyListens : Env :=
  {| helix_streams := fun _ => liveSince newYear;
     clock := fun _ => newYear + 60000;
     guilds := [deafGuild; deafGuild];
     embed_refused := fun _ _ => false |}.

(** A stream without [viewer_count]. *)
Definition streamUncounted : Twitch.Stream :=
  {| Twitch.title := Some "speedrun"; Twitch.game_name := Some "Chess";
     Twitch.thumbnail_url := None; Twitch.viewer_count := None;
     Twitch.started_at := Some newYear |}.

Definition uncountedEnv : Env :=
  {| helix_streams := fun _ => Ok [streamUncounted];
     clock := fun _ => newYear + 60000;
     guilds := [theGuild];
     embed_refused := fun _ _ => false |}.

(** An internet in which the clock reads one second more each time, the
    token lasts an hour, alice exists and is live. *)
Definition theInternet : TwitchApi.Internet :=
  {| TwitchApi.Date_now := fun k => newYear + 1000 * Z.of_nat k;
     TwitchApi.token_answer :=
       fun _ => TwitchApi.TokenOk (Some "token") (Some 3600);
     TwitchApi.users_answer :=
       fun _ name =>
         if String.eqb name "alice" then TwitchApi.UsersOk [alice]
         else TwitchApi.UsersOk [];
     TwitchApi.streams_answer := fun _ _ => liveSince newYear |}.

(** The module as it is loaded: no token, nothing asked. *)
Definition freshClient : TwitchApi.Client :=
  {| TwitchApi.accessToken := None; TwitchApi.tokenExpiry := None;
     TwitchApi.clockReads := 0; TwitchApi.requests := [] |}.

(** A stand-in for [new URL] that takes every string for a path on
    [twitch.tv], except the empty one, on which it throws. *)
Definition twitchPath (url : string) : option TwitchApi.URL :=
  match url with
  | EmptyString => None
  | _ => Some {| TwitchApi.hostname := "twitch.tv";
                 TwitchApi.pathname := url |}
  end.

(** An interaction whose calls all resolve. *)
Definition obliging : Interaction :=
  {| deferReply_resolves := true; editReply_throws := fun _ => None |}.

(** An interaction in which no embed is built. *)
Definition noEmbeds : Interaction :=
  {| deferReply_resolves := true;
     editReply_throws :=
       fun reply =>
         match reply with
         | ReplyAdded _ _ _ | ReplyList _ | ReplyLive _ _ => Some Refused
         | _ => None
         end |}.

(** Twenty-six watched streamers, with the identifiers A to Z. *)
Definition crowd : World :=
  {| disk :=
       Some {| streamers :=
                 map (fun n =>
                        let name :=
                          String (Ascii.ascii_of_nat (65 + n)) EmptyString in
                        {| id := name; username := name; displayName := name;
                           profileImageUrl := "https://static-cdn.jtvnw.net/x.png";
                           addedAt := 1; isLive := false;
                           currentStream := None |})
                   (seq 0 26);
               lastNotified := ∅ |};
     outbox := []; console := []; dispatched := [] |}.

(** The storage call that throws for alice only. *)
Definition onlyAlice (fault : Fault) (streamerId : string) : Fault :=
  if String.eqb streamerId "123" then fault else NoFault.

(** * Properties *)

(** ** The storage file *)

Lemma data_of_Some (d : Data) : data_of (Some d) = d.
Proof. reflexivity. Qed.

Lemma data_of_None : data_of None = emptyData.
Proof. reflexivity. Qed.

Lemma readStorage_eq (file : File) :
  readStorage file = (data_of file, Some (data_of file)).
Proof. destruct file; reflexivity. Qed.

Lemma hasId_true (a : string) (s : Streamer) : hasId a s = true <-> id s = a.
Proof. unfold hasId. apply String.eqb_eq. Qed.

Lemma hasId_false (a : string) (s : Streamer) : hasId a s = false <-> id s ≠ a.
Proof. unfold hasId. apply String.eqb_neq. Qed.

Lemma existsb_hasId (a : string) (l : list Streamer) :
  existsb (hasId a) l = true <-> a ∈ map id l.
Proof.
  induction l as [|s l IH]; simpl.
  - split; [discriminate | intros H; inversion H].
  - rewrite orb_true_iff, IH, hasId_true, elem_of_cons. intuition congruence.
Qed.

Lemma existsb_hasId_false (a : string) (l : list Streamer) :
  existsb (hasId a) l = false <-> a ∉ map id l.
Proof.
  rewrite <- existsb_hasId. destruct (existsb (hasId a) l); intuition congruence.
Qed.

(** *** [addStreamer] *)

Lemma addStreamer_eq (now : Z) (u : Twitch.User) (file : File) :
  addStreamer now u file =
  if existsb (hasId (Twitch.id u)) (streamers (data_of file))
  then (false, Some (data_of file))
  else (true,
        Some {| streamers := streamers (data_of file) ++
                  [ {| id := Twitch.id u;
                       username := Twitch.login u;
                       displayName := Twitch.display_name u;
                       profileImageUrl := Twitch.profile_image_url u;
                       addedAt := now;
                       isLive := false;
                       currentStream := None |} ];
                lastNotified := lastNotified (data_of file) |}).
Proof. unfold addStreamer. rewrite readStorage_eq. reflexivity. Qed.

(** *** [removeStreamer] *)

Lemma filter_others_length (a : string) (l : list Streamer) :
  Nat.ltb (length (List.filter (fun s => negb (hasId a s)) l)) (length l) = true
  <-> a ∈ map id l.
Proof.
  rewrite Nat.ltb_lt.
  induction l as [|s l IH]; simpl.
  - split; [lia | intros H; inversion H].
  - rewrite elem_of_cons.
    pose proof (List.filter_length_le (fun s => negb (hasId a s)) l) as Hle.
    destruct (hasId a s) eqn:E; simpl.
    + apply hasId_true in E. split; [auto | lia].
    + apply hasId_false in E. rewrite <- IH. split; [intros; right; lia|].
      intros [->|]; [congruence | lia].
Qed.

Lemma filter_others_id (a : string) (l : list Streamer) :
  a ∉ map id l -> List.filter (fun s => negb (hasId a s)) l = l.
Proof.
  induction l as [|s l IH]; simpl; [reflexivity|].
  rewrite not_elem_of_cons. intros [Hne Hl].
  assert (hasId a s = false) as -> by (apply hasId_false; congruence).
  simpl. f_equal. auto.
Qed.

Lemma filter_others_absent (a : string) (l : list Streamer) :
  a ∉ map id (List.filter (fun s => negb (hasId a s)) l).
Proof.
  induction l as [|s l IH]; simpl; [inversion 1|].
  destruct (hasId a s) eqn:E; simpl; [assumption|].
  apply hasId_false in E. rewrite not_elem_of_cons. split; congruence.
Qed.

Lemma filter_others_sub (a b : string) (l : list Streamer) :
  b ∈ map id (List.filter (fun s => negb (hasId a s)) l) -> b ∈ map id l.
Proof.
  induction l as [|s l IH]; simpl; [auto|].
  destruct (hasId a s); simpl; rewrite ?elem_of_cons; intuition.
Qed.

Lemma filter_others_NoDup (a : string) (l : list Streamer) :
  NoDup (map id l) -> NoDup (map id (List.filter (fun s => negb (hasId a s)) l)).
Proof.
  induction l as [|s l IH]; simpl; [auto|].
  rewrite NoDup_cons. intros [Hs Hl].
  destruct (hasId a s); simpl; auto.
  apply NoDup_cons. split; auto.
  intros H. apply Hs. eapply filter_others_sub, H.
Qed.

Lemma removeStreamer_eq (a : string) (file : File) :
  removeStreamer a file =
  (Nat.ltb (length (List.filter (fun s => negb (hasId a s))
                      (streamers (data_of file))))
           (length (streamers (data_of file))),
   Some {| streamers :=
             List.filter (fun s => negb (hasId a s)) (streamers (data_of file));
           lastNotified := delete a (lastNotified (data_of file)) |}).
Proof.
  unfold removeStreamer. rewrite readStorage_eq. simpl.
  destruct (lastNotified (data_of file) !! a) eqn:E; simpl; [reflexivity|].
  rewrite delete_id by assumption. reflexivity.
Qed.

(** *** [updateStreamerStatus] *)

Lemma mutateFirst_ids (a : string) (f : Streamer -> Streamer) (l : list Streamer) :
  (forall s, id (f s) = id s) ->
  map id (snd (mutateFirst (hasId a) f l)) = map id l.
Proof.
  intros Hf. induction l as [|s l IH]; simpl; [reflexivity|].
  destruct (hasId a s); simpl; [by rewrite Hf|].
  destruct (mutateFirst (hasId a) f l); simpl in *. by rewrite IH.
Qed.

Lemma mutateFirst_found (a : string) (f : Streamer -> Streamer) (l : list Streamer) :
  fst (mutateFirst (hasId a) f l) = f <$> List.find (hasId a) l.
Proof.
  induction l as [|s l IH]; simpl; [reflexivity|].
  destruct (hasId a s); simpl; [reflexivity|].
  destruct (mutateFirst (hasId a) f l); simpl in *. assumption.
Qed.

Lemma mutateFirst_missing (a : string) (f : Streamer -> Streamer) (l : list Streamer) :
  List.find (hasId a) l = None -> snd (mutateFirst (hasId a) f l) = l.
Proof.
  induction l as [|s l IH]; simpl; [reflexivity|].
  destruct (hasId a s); simpl; [discriminate|].
  intros H. destruct (mutateFirst (hasId a) f l); simpl in *. by rewrite IH.
Qed.

Lemma mutateFirst_find (a b : string) (f : Streamer -> Streamer) (l : list Streamer) :
  (forall s, id (f s) = id s) ->
  List.find (hasId b) (snd (mutateFirst (hasId a) f l)) =
  if decide (a = b) then f <$> List.find (hasId a) l else List.find (hasId b) l.
Proof.
  intros Hf. induction l as [|s l IH]; simpl.
  - by destruct (decide (a = b)).
  - destruct (hasId a s) eqn:Ea; simpl.
    + apply hasId_true in Ea. destruct (decide (a = b)) as [<-|Hne].
      * assert (hasId a (f s) = true) as -> by (apply hasId_true; by rewrite Hf).
        reflexivity.
      * assert (hasId b (f s) = false) as ->
          by (apply hasId_false; rewrite Hf; congruence).
        assert (hasId b s = false) as -> by (apply hasId_false; congruence).
        reflexivity.
    + destruct (mutateFirst (hasId a) f l) as [r l'] eqn:Em; simpl in *.
      destruct (hasId b s) eqn:Eb.
      * apply hasId_true in Eb. apply hasId_false in Ea.
        destruct (decide (a = b)); [congruence | reflexivity].
      * exact IH.
Qed.

Lemma mutateFirst_Forall (a : string) (f : Streamer -> Streamer)
    (P : Streamer -> Prop) (l : list Streamer) :
  (forall s, P (f s)) -> Forall P l -> Forall P (snd (mutateFirst (hasId a) f l)).
Proof.
  intros Hf. induction 1 as [|s l Hs Hl IH]; simpl; [constructor|].
  destruct (hasId a s); simpl; [constructor; auto|].
  destruct (mutateFirst (hasId a) f l); simpl in *. constructor; auto.
Qed.

Lemma setStatus_id (b : bool) (i : option Twitch.Stream) (s : Streamer) :
  id (setStatus b i s) = id s.
Proof. reflexivity. Qed.

Lemma updateStreamerStatus_eq (a : string) (b : bool)
    (i : option Twitch.Stream) (file : File) :
  updateStreamerStatus a b i file =
  (setStatus b i <$> stored a (data_of file),
   Some {| streamers :=
             snd (mutateFirst (hasId a) (setStatus b i) (streamers (data_of file)));
           lastNotified := lastNotified (data_of file) |}).
Proof.
  unfold updateStreamerStatus, stored. rewrite readStorage_eq.
  pose proof (mutateFirst_found a (setStatus b i) (streamers (data_of file))) as Hf.
  destruct (mutateFirst (hasId a) (setStatus b i) (streamers (data_of file)))
    as [[s|] l] eqn:E; simpl in *; rewrite <- Hf.
  - reflexivity.
  - symmetry in Hf. destruct (List.find _ _) eqn:Efind; [discriminate|].
    pose proof (mutateFirst_missing a (setStatus b i) _ Efind) as Hm.
    rewrite E in Hm. simpl in Hm. subst l. by destruct (data_of file).
Qed.

(** *** [shouldNotify] and [markNotified] *)

Lemma shouldNotify_eq (a : string) (start : option Z) (file : File) :
  shouldNotify a start file =
  (decision (lastNotified (data_of file) !! a) start, Some (data_of file)).
Proof.
  unfold shouldNotify, decision. rewrite readStorage_eq.
  by destruct (lastNotified (data_of file) !! a).
Qed.

Lemma markNotified_eq (now : Z) (a : string) (file : File) :
  markNotified now a file =
  (tt, Some {| streamers := streamers (data_of file);
               lastNotified := <[a := now]> (lastNotified (data_of file)) |}).
Proof. unfold markNotified. rewrite readStorage_eq. reflexivity. Qed.

(** ** The entity store *)

Lemma applyOp_ids_NoDup (op : Op) (file : File) :
  NoDup (ids (data_of file)) -> NoDup (ids (data_of (applyOp file op))).
Proof.
  unfold ids. intros Hnd. destruct op as [now u|a|a b i]; cbn [applyOp].
  - rewrite addStreamer_eq.
    destruct (existsb _ _) eqn:E; simpl; [assumption|].
    apply existsb_hasId_false in E.
    rewrite map_app. simpl. apply NoDup_app. repeat split; auto.
    + intros x Hx Hin. apply list_elem_of_singleton in Hin. by subst.
    + apply NoDup_singleton.
  - rewrite removeStreamer_eq. simpl. by apply filter_others_NoDup.
  - rewrite updateStreamerStatus_eq. simpl.
    rewrite mutateFirst_ids by apply setStatus_id. assumption.
Qed.

Lemma runOps_ids_NoDup (ops : list Op) (file : File) :
  NoDup (ids (data_of file)) -> NoDup (ids (data_of (runOps ops file))).
Proof.
  revert file. induction ops as [|op ops IH]; intros file H; simpl; [assumption|].
  apply IH, applyOp_ids_NoDup, H.
Qed.

(** C5.  Whatever operations of the store are run, starting from the empty
    store (the file absent, or holding no streamer), no two stored records
    have the same identifier.  The sequences may also contain
    [SetLiveState]; those of [Add] and [Remove] alone are among them. *)
Theorem store_identifiers_unique (ops : list Op) :
  NoDup (ids (data_of (runOps ops None))) /\
  NoDup (ids (data_of (runOps ops (Some emptyData)))).
Proof. split; apply runOps_ids_NoDup; constructor. Qed.

(** C6.  [addStreamer] returns false and leaves the file as it is when the
    identifier is already stored; otherwise it returns true and the file
    holds the former records followed by one for the new streamer, which is
    not live and has no [currentStream]; the ledger is as before. *)
Theorem addStreamer_spec (now : Z) (u : Twitch.User) (file : File) :
  (Twitch.id u ∈ ids (data_of file) ->
     addStreamer now u file = (false, file)) /\
  (Twitch.id u ∉ ids (data_of file) ->
     exists s,
       addStreamer now u file =
         (true, Some {| streamers := streamers (data_of file) ++ [s];
                        lastNotified := lastNotified (data_of file) |}) /\
       id s = Twitch.id u /\ username s = Twitch.login u /\
       displayName s = Twitch.display_name u /\
       profileImageUrl s = Twitch.profile_image_url u /\
       addedAt s = now /\ isLive s = false /\ currentStream s = None).
Proof.
  unfold ids. rewrite addStreamer_eq. split; intros H.
  - assert (existsb (hasId (Twitch.id u)) (streamers (data_of file)) = true)
      as -> by (by apply existsb_hasId).
    destruct file as [d|]; [reflexivity | inversion H].
  - assert (existsb (hasId (Twitch.id u)) (streamers (data_of file)) = false)
      as -> by (by apply existsb_hasId_false).
    eexists. split; [reflexivity|]. simpl. repeat split.
Qed.

Lemma addStreamer_spec_witness :
  addStreamer 5 alice (disk aliceWatched) = (false, disk aliceWatched).
Proof.
  apply (proj1 (addStreamer_spec 5 alice (disk aliceWatched))).
  vm_compute. apply list_elem_of_here.
Defined.

(** C7 as the specification has it fails on a ledger that holds an entry
    for an identifier that is not watched: [removeStreamer] answers false
    and the store is as before, but the entry is gone. *)
Lemma removeStreamer_absent_changes_ledger :
  ids (data_of orphanLedger) = [] /\
  fst (removeStreamer "123" orphanLedger) = false /\
  lastNotified (data_of orphanLedger) !! "123" = Some newYear /\
  lastNotified (data_of (snd (removeStreamer "123" orphanLedger))) !! "123" = None.
Proof. vm_compute. repeat split. Qed.

(** C7, amended.  [removeStreamer] returns true exactly when a record with
    the identifier was stored; afterwards no record has the identifier, the
    other records are kept in order, and the ledger is the former one
    without the entry of the identifier.  When the identifier was not
    stored the records are as before, and so is the whole content if the
    ledger had no entry for it either. *)
Theorem removeStreamer_spec (a : string) (file : File) :
  let before := data_of file in
  let after := data_of (snd (removeStreamer a file)) in
  (fst (removeStreamer a file) = true <-> a ∈ ids before) /\
  (a ∉ ids after) /\
  streamers after = List.filter (fun s => negb (hasId a s)) (streamers before) /\
  lastNotified after = delete a (lastNotified before) /\
  (a ∉ ids before ->
     fst (removeStreamer a file) = false /\
     streamers after = streamers before /\
     (lastNotified before !! a = None -> after = before)).
Proof.
  unfold ids. rewrite removeStreamer_eq. simpl.
  split; [apply filter_others_length|].
  split; [apply filter_others_absent|].
  split; [reflexivity|]. split; [reflexivity|].
  intros Habs. split.
  - destruct (Nat.ltb _ _) eqn:E; [|reflexivity].
    apply filter_others_length in E. contradiction.
  - rewrite filter_others_id by assumption. split; [reflexivity|].
    intros Hno. rewrite delete_id by assumption. by destruct (data_of file).
Qed.

Lemma removeStreamer_spec_witness :
  fst (removeStreamer "456" (disk aliceWatched)) = false /\
  streamers (data_of (snd (removeStreamer "456" (disk aliceWatched)))) =
    streamers (data_of (disk aliceWatched)) /\
  (lastNotified (data_of (disk aliceWatched)) !! "456" = None ->
   data_of (snd (removeStreamer "456" (disk aliceWatched))) =
     data_of (disk aliceWatched)).
Proof.
  apply (proj2 (proj2 (proj2 (proj2
           (removeStreamer_spec "456" (disk aliceWatched)))))).
  vm_compute. intros H. apply list_elem_of_singleton in H. discriminate.
Defined.

(** C8 as the specification has it fails on [SetLiveState] with the live
    flag and no stream: the record is live and carries no [currentStream]. *)
Lemma live_without_metadata :
  Exists (fun s => isLive s = true /\ currentStream s = None)
    (streamers (data_of
       (runOps [Add 1 alice; SetLiveState "123" true None] None))).
Proof. vm_compute. apply Exists_cons_hd. split; reflexivity. Qed.

Lemma setStatus_metadata (b : bool) (i : option Twitch.Stream) (s : Streamer) :
  (b = true -> is_Some i) -> metadataIffLive (setStatus b i s).
Proof.
  unfold metadataIffLive. intros H. destruct b; simpl.
  - destruct H as [info ->]; [reflexivity|]. split; eauto.
  - split; [intros [x Hx]|]; discriminate.
Qed.

Lemma setStatus_metadata_live (b : bool) (i : option Twitch.Stream) (s : Streamer) :
  is_Some (currentStream (setStatus b i s)) -> isLive (setStatus b i s) = true.
Proof. destruct b, i; simpl; intros [x Hx]; congruence. Qed.

Lemma applyOp_metadata (op : Op) (file : File) :
  liveWithMetadata op ->
  Forall metadataIffLive (streamers (data_of file)) ->
  Forall metadataIffLive (streamers (data_of (applyOp file op))).
Proof.
  intros Hop H. destruct op as [now u|a|a b i]; cbn [applyOp].
  - rewrite addStreamer_eq. destruct (existsb _ _); simpl; [assumption|].
    apply Forall_app. split; [assumption|]. constructor; [|constructor].
    unfold metadataIffLive. simpl. split; [intros [x Hx]|]; discriminate.
  - rewrite removeStreamer_eq. simpl.
    rewrite Forall_forall in *. intros s Hs.
    apply list_elem_of_In, List.filter_In in Hs. apply H, list_elem_of_In, Hs.
  - rewrite updateStreamerStatus_eq. simpl.
    apply mutateFirst_Forall; [|assumption].
    intros s. apply setStatus_metadata. intros ->.
    destruct i; [eauto | contradiction].
Qed.

Lemma applyOp_metadata_live (op : Op) (file : File) :
  Forall (fun s => is_Some (currentStream s) -> isLive s = true)
    (streamers (data_of file)) ->
  Forall (fun s => is_Some (currentStream s) -> isLive s = true)
    (streamers (data_of (applyOp file op))).
Proof.
  intros H. destruct op as [now u|a|a b i]; cbn [applyOp].
  - rewrite addStreamer_eq. destruct (existsb _ _); simpl; [assumption|].
    apply Forall_app. split; [assumption|]. constructor; [|constructor].
    simpl. intros [x Hx]. discriminate.
  - rewrite removeStreamer_eq. simpl.
    rewrite Forall_forall in *. intros s Hs.
    apply list_elem_of_In, List.filter_In in Hs. apply H, list_elem_of_In, Hs.
  - rewrite updateStreamerStatus_eq. simpl.
    apply mutateFirst_Forall; [|assumption].
    intros s. apply setStatus_metadata_live.
Qed.

(** C8, amended.  From a store in which every record carries
    [currentStream] exactly when it is live, operations keep it so as long
    as every [SetLiveState] that says live comes with a stream (as the
    sweep calls it); and under any operations at all, a record that
    carries [currentStream] is live. *)
Theorem metadata_iff_live (ops : list Op) (file : File) :
  Forall metadataIffLive (streamers (data_of file)) ->
  (Forall liveWithMetadata ops ->
   Forall metadataIffLive (streamers (data_of (runOps ops file)))) /\
  Forall (fun s => is_Some (currentStream s) -> isLive s = true)
    (streamers (data_of (runOps ops file))).
Proof.
  intros H. split.
  - revert file H. induction ops as [|op ops IH]; intros file H Hops; simpl;
      [assumption|].
    inversion Hops; subst. apply IH; [|assumption]. by apply applyOp_metadata.
  - assert (Forall (fun s => is_Some (currentStream s) -> isLive s = true)
              (streamers (data_of file))) as H'.
    { eapply Forall_impl; [exact H|]. intros s Hs. apply Hs. }
    clear H. revert file H'. induction ops as [|op ops IH]; intros file H; simpl;
      [assumption|].
    apply IH. by apply applyOp_metadata_live.
Qed.

Lemma metadata_iff_live_witness :
  Forall metadataIffLive
    (streamers (data_of
       (runOps [Add 1 alice; SetLiveState "123" true (Some liveUndated);
                SetLiveState "123" false (Some liveUndated); Remove "123"]
          None))).
Proof.
  apply (metadata_iff_live _ None).
  - vm_compute. constructor.
  - repeat constructor.
Defined.

(** ** The notification policy *)

(** C4 as the specification has it fails once the ledger has an entry:
    alice was notified at the new year, went offline, and is seen live
    again by a snapshot without [started_at]; the policy says no and no
    second notification is sent. *)
Lemma undated_snapshot_suppressed :
  let w := sweeps [sweepEnv (liveSince newYear) (newYear + 60000);
                   sweepEnv offline (newYear + 360000)] aliceWatched in
  (isLive <$> stored "123" (data_of (disk w))) = Some false /\
  fst (shouldNotify "123" (Twitch.started_at liveUndated) (disk w)) = false /\
  notifications "123" w = 1%nat /\
  notifications "123"
    (after (checkAllStreamers
              (sweepEnv (Ok [liveUndated]) (newYear + 660000))) w) = 1%nat.
Proof. vm_compute. repeat split. Qed.

(** C4, amended.  For a snapshot without a session start, [shouldNotify]
    says yes exactly when the ledger has no entry for the identifier. *)
Theorem shouldNotify_undated (a : string) (file : File) :
  fst (shouldNotify a None file) = true <->
  lastNotified (data_of file) !! a = None.
Proof.
  rewrite shouldNotify_eq. simpl. unfold decision.
  destruct (lastNotified (data_of file) !! a); simpl; split; congruence.
Qed.

(** ** The notification sink *)

Local Ltac run_async :=
  unfold bind, ret, throw, tryCatch, console_log, storage; simpl.

Lemma sendLiveNotification_guilds (env : Env) (s : Streamer)
    (i : Twitch.Stream) (gs : list Guild) (w : World) :
  exists w',
    forOf gs (fun guild =>
      tryCatch
        (match channel guild with
         | None => console_log (LogNoChannel (guild_name guild))
         | Some channel =>
             bind (match embedThrows env s i with
                   | Some error => throw error
                   | None => ret tt
                   end)
               (fun _ =>
                  bind (if send_resolves guild
                        then fun w =>
                               (Normal tt,
                                add_message
                                  {| to_guild := guild_name guild;
                                     to_channel := channel;
                                     streamUrl :=
                                       "https://twitch.tv/" +:+ username s |} w)
                        else throw SendRejected)
                    (fun _ => console_log
                                (LogSent (displayName s) (guild_name guild))))
         end)
        (fun error => console_log (LogErrorSending (guild_name guild) error))) w
    = (Normal tt, w') /\
    disk w' = disk w /\ dispatched w' = dispatched w /\
    outbox w' = outbox w ++ flat_map (delivered env s i) gs.
Proof.
  revert w. induction gs as [|g gs IH]; intros w; simpl.
  - exists w. rewrite app_nil_r. by repeat split.
  - unfold delivered at 1.
    destruct (channel g) as [c|] eqn:Ec;
      [destruct (embedThrows env s i) as [err|] eqn:En;
       [|destruct (send_resolves g) eqn:Es]|];
      unfold bind at 1; run_async; rewrite ?Ec, ?En, ?Es; simpl;
      match goal with
      | |- context [forOf gs ?body ?w1] =>
          destruct (IH w1) as (w' & E & Hd & Hn & Ho)
      end;
      exists w'; (split; [exact E|]);
      rewrite Hd, Hn, Ho; simpl; rewrite <- ?app_assoc; by repeat split.
Qed.

Lemma sendLiveNotification_effect (env : Env) (s : Streamer)
    (i : Twitch.Stream) (w : World) :
  exists w',
    sendLiveNotification env s i w = (Normal tt, w') /\
    disk w' = disk w /\
    dispatched w' = dispatched w ++ [id s] /\
    outbox w' = outbox w ++ flat_map (delivered env s i) (guilds env).
Proof.
  unfold sendLiveNotification.
  destruct (sendLiveNotification_guilds env s i (guilds env)
              (add_dispatch (id s) w)) as (w' & E & Hd & Hn & Ho).
  exists w'. unfold bind at 1. unfold tryCatch at 1.
  unfold bind in E |- *. simpl in E |- *. rewrite E.
  by repeat split.
Qed.

(** ** One iteration of the sweep *)

Lemma checkIfLive_eq (env : Env) (a : string) (w : World) :
  checkIfLive env a w =
  match helix_streams env a with
  | NoResponse => (Throw FetchRejected, w)
  | NotOk t => (Throw (BadStatus t), w)
  | Ok [] => (Normal None, w)
  | Ok (i :: _) => (Normal (Some i), w)
  end.
Proof.
  unfold checkIfLive. destruct (helix_streams env a) as [| |[|i r]]; reflexivity.
Qed.

Lemma checkStreamerTry_cases (env : Env) (s : Streamer) (w : World) :
  (failed (helix_streams env (id s)) = true /\
   exists e, checkStreamerTry env s w = (Throw e, w)) \/
  (failed (helix_streams env (id s)) = false /\
   exists w', checkStreamerTry env s w = (Normal tt, w') /\
              visible w' = iterate env (visible w) s).
Proof.
  unfold visible, iterate, notifies, seen.
  destruct (helix_streams env (id s)) as [|t|[|i rest]] eqn:Eh; cbn [failed];
    [left|left|right|right]; (split; [reflexivity|]);
    unfold checkStreamerTry; unfold bind at 1; rewrite checkIfLive_eq, Eh.
  - eauto.
  - eauto.
  - unfold bind, storage, ret. rewrite updateStreamerStatus_eq.
    eexists. split; [reflexivity|]. simpl. by rewrite !app_nil_r.
  - unfold bind at 1. unfold storage at 1. rewrite updateStreamerStatus_eq.
    destruct (isLive s) eqn:El; cbn [negb andb].
    + eexists. split; [reflexivity|]. simpl. by rewrite !app_nil_r.
    + unfold bind at 1. unfold storage at 1. cbn [disk set_disk].
      rewrite shouldNotify_eq. cbn [disk set_disk].
      rewrite !data_of_Some. cbn [lastNotified].
      destruct (decision (lastNotified (data_of (disk w)) !! id s)
                  (Twitch.started_at i)) eqn:Ed.
      * unfold bind at 1.
        match goal with
        | |- context [sendLiveNotification env s i ?w1] =>
            destruct (sendLiveNotification_effect env s i w1)
              as (w2 & E & Hd & Hn & Ho)
        end.
        rewrite E. unfold storage. rewrite markNotified_eq.
        eexists. split; [reflexivity|]. simpl.
        rewrite Hd, Hn, Ho. reflexivity.
      * eexists. split; [reflexivity|]. simpl. by rewrite !app_nil_r.
Qed.

Lemma checkStreamer_effect (env : Env) (s : Streamer) (w : World) :
  exists w',
    checkStreamer env s w = (Normal tt, w') /\
    visible w' = iterate env (visible w) s /\
    (failed (helix_streams env (id s)) = true -> disk w' = disk w).
Proof.
  unfold checkStreamer, tryCatch.
  destruct (checkStreamerTry_cases env s w) as [[Hf [e E]]|[Hf (w' & E & Hv)]];
    rewrite E.
  - eexists. split; [reflexivity|]. split; [|reflexivity].
    unfold visible, iterate. simpl. by rewrite Hf.
  - exists w'. split; [reflexivity|]. split; [assumption|]. congruence.
Qed.

Lemma forOf_checkStreamer (env : Env) (l : list Streamer) (w : World) :
  exists w',
    forOf l (checkStreamer env) w = (Normal tt, w') /\
    visible w' = fold_left (iterate env) l (visible w).
Proof.
  revert w. induction l as [|s l IH]; intros w; cbn [forOf fold_left].
  - exists w. split; reflexivity.
  - destruct (checkStreamer_effect env s w) as (w1 & E & Hv & _).
    destruct (IH w1) as (w2 & E2 & Hv2).
    exists w2. unfold bind. rewrite E. split; [assumption|]. by rewrite <- Hv.
Qed.

Lemma checkAllStreamers_effect (env : Env) (w : World) :
  exists w',
    checkAllStreamers env w = (Normal tt, w') /\
    visible w' =
    fold_left (iterate env) (streamers (data_of (disk w))) (visible w).
Proof.
  unfold checkAllStreamers, tryCatch.
  unfold bind at 1. unfold storage at 1. unfold getAllStreamers.
  rewrite readStorage_eq. cbn [disk set_disk].
  destruct (streamers (data_of (disk w))) as [|s l] eqn:El.
  - eexists. split; [reflexivity|]. reflexivity.
  - cbn [length Nat.eqb]. unfold bind at 1, console_log at 1.
    unfold bind at 1.
    match goal with
    | |- context [forOf (s :: l) (checkStreamer env) ?w1] =>
        destruct (forOf_checkStreamer env (s :: l) w1) as (w2 & E & Hv)
    end.
    rewrite E. unfold console_log. eexists. split; [reflexivity|].
    unfold visible in *. simpl in *. exact Hv.
Qed.

(** A sweep returns, and on what is visible it is the loop over the records
    that the file held when it started. *)
Lemma checkAllStreamers_visible (env : Env) (w : World) :
  visible (after (checkAllStreamers env) w) =
  fold_left (iterate env) (streamers (data_of (disk w))) (visible w).
Proof.
  unfold after.
  destruct (checkAllStreamers_effect env w) as (w' & E & Hv). by rewrite E.
Qed.

(** ** A sweep, entity by entity *)

Lemma entityOf_visible (a : string) (w : World) :
  entityOf a w = entityIn a (visible w).
Proof. reflexivity. Qed.

Lemma find_hasId_NoDup (l : list Streamer) (s : Streamer) :
  NoDup (map id l) -> s ∈ l -> List.find (hasId (id s)) l = Some s.
Proof.
  induction l as [|x l IH]; simpl; [inversion 2|].
  rewrite NoDup_cons, elem_of_cons. intros [Hx Hl] [->|Hs].
  - assert (hasId (id x) x = true) as -> by (by apply hasId_true). reflexivity.
  - assert (hasId (id s) x = false) as ->; [|auto].
    apply hasId_false. intros E. apply Hx. rewrite E.
    apply list_elem_of_fmap. eauto.
Qed.

Lemma find_hasId_elem (a : string) (l : list Streamer) (s : Streamer) :
  List.find (hasId a) l = Some s -> s ∈ l /\ id s = a.
Proof.
  intros H. apply List.find_some in H as [Hin Hid].
  split; [by apply list_elem_of_In | by apply hasId_true].
Qed.

Lemma iterate_ids (env : Env) (v : Visible) (s : Streamer) :
  ids (iterate env v s).1.1 = ids v.1.1.
Proof.
  destruct v as [[d sent] out]. unfold iterate, ids.
  destruct (failed _); [reflexivity|]. simpl.
  by rewrite mutateFirst_ids by apply setStatus_id.
Qed.

Lemma count_snoc (a b : string) (l : list string) :
  length (List.filter (String.eqb a) (l ++ [b])) =
  if String.eqb a b then S (length (List.filter (String.eqb a) l))
  else length (List.filter (String.eqb a) l).
Proof.
  rewrite List.filter_app, length_app. simpl.
  destruct (String.eqb a b); simpl; lia.
Qed.

Lemma iterate_other (env : Env) (v : Visible) (s : Streamer) (a : string) :
  id s ≠ a -> entityIn a (iterate env v s) = entityIn a v.
Proof.
  intros Hne. destruct v as [[d sent] out]. unfold iterate.
  destruct (failed _); [reflexivity|].
  unfold entityIn, stored. cbn [streamers lastNotified].
  rewrite mutateFirst_find by apply setStatus_id.
  destruct (decide (id s = a)) as [|_]; [contradiction|].
  assert (String.eqb a (id s) = false) as Eab by (apply String.eqb_neq; congruence).
  destruct (notifies env s d).
  - rewrite lookup_insert_ne by assumption. rewrite count_snoc, Eab. reflexivity.
  - by rewrite app_nil_r.
Qed.

Lemma iterate_self (env : Env) (d : Data) (sent : list string)
    (out : list Message) (s : Streamer) :
  stored (id s) d = Some s ->
  entityIn (id s) (iterate env (d, sent, out) s) =
  Some (entityStep (helix_streams env (id s)) (clock env (id s))
          (s, lastNotified d !! id s,
           length (List.filter (String.eqb (id s)) sent))).
Proof.
  intros Hs. unfold iterate, notifies, seen, entityStep.
  destruct (helix_streams env (id s)) as [|t|[|i rest]] eqn:Eh; cbn [failed];
    try (unfold entityIn; by rewrite Hs);
    unfold entityIn, stored; cbn [streamers lastNotified];
    rewrite mutateFirst_find by apply setStatus_id;
    (destruct (decide (id s = id s)) as [_|]; [|contradiction]);
    unfold stored in Hs; rewrite Hs; cbn [fmap option_fmap option_map].
  - by rewrite app_nil_r.
  - destruct (negb (isLive s) && decision _ _).
    + rewrite lookup_insert_eq, count_snoc, String.eqb_refl. reflexivity.
    + by rewrite app_nil_r.
Qed.

Lemma entityIn_stored (a : string) (v v' : Visible) :
  entityIn a v' = entityIn a v -> stored a v'.1.1 = stored a v.1.1.
Proof.
  destruct v as [[d sent] out], v' as [[d' sent'] out']. unfold entityIn. simpl.
  destruct (stored a d'), (stored a d); congruence.
Qed.

Lemma fold_iterate_entities (env : Env) (l : list Streamer) (v : Visible) :
  NoDup (map id l) ->
  (forall s, s ∈ l -> stored (id s) v.1.1 = Some s) ->
  ids (fold_left (iterate env) l v).1.1 = ids v.1.1 /\
  forall a,
    (a ∉ map id l -> entityIn a (fold_left (iterate env) l v) = entityIn a v) /\
    (forall s, s ∈ l -> id s = a ->
       entityIn a (fold_left (iterate env) l v) =
       Some (entityStep (helix_streams env a) (clock env a)
               (s, lastNotified v.1.1 !! a,
                length (List.filter (String.eqb a) v.1.2)))).
Proof.
  revert v. induction l as [|x l IH]; intros v Hnd Hst; cbn [fold_left].
  - split; [reflexivity|]. intros a. split; [reflexivity|]. intros s Hs.
    inversion Hs.
  - cbn [map] in Hnd. apply NoDup_cons in Hnd as [Hx Hnd].
    assert (forall s, s ∈ l -> id x ≠ id s) as Hdiff.
    { intros s Hs E. apply Hx. rewrite E. apply list_elem_of_fmap. eauto. }
    destruct (IH (iterate env v x) Hnd) as [Hids Hent].
    { intros s Hs.
      rewrite (entityIn_stored (id s) v (iterate env v x)).
      - apply Hst. by right.
      - apply iterate_other. by apply Hdiff. }
    split; [by rewrite Hids, iterate_ids|].
    intros a. split.
    + cbn [map]. rewrite not_elem_of_cons. intros [Ha Hl].
      rewrite (proj1 (Hent a) Hl). apply iterate_other. congruence.
    + intros s Hs Hid. apply elem_of_cons in Hs as [->|Hs].
      * subst a. rewrite (proj1 (Hent (id x)) Hx).
        destruct v as [[d sent] out]. apply iterate_self.
        apply (Hst x). by left.
      * subst a. rewrite (proj2 (Hent (id s)) s Hs eq_refl).
        pose proof (iterate_other env v x (id s) (Hdiff s Hs)) as Ho.
        pose proof (Hst s ltac:(by right)) as Hs'.
        destruct v as [[d sent] out]. cbn [fst snd] in Hs'.
        destruct (iterate env (d, sent, out) x) as [[d' sent'] out'] eqn:Ei.
        unfold entityIn in Ho. rewrite Hs' in Ho.
        destruct (stored (id s) d'); [|discriminate].
        cbn [fst snd]. injection Ho as _ -> ->. reflexivity.
Qed.

(** A sweep over a store without duplicate identifiers does to each
    watched entity what [entityStep] says, and keeps the identifiers. *)
Lemma sweep_entity (env : Env) (w : World) (a : string) (e : Entity) :
  NoDup (ids (data_of (disk w))) ->
  entityOf a w = Some e ->
  entityOf a (after (checkAllStreamers env) w) =
    Some (entityStep (helix_streams env a) (clock env a) e) /\
  NoDup (ids (data_of (disk (after (checkAllStreamers env) w)))).
Proof.
  intros Hnd He. rewrite entityOf_visible, checkAllStreamers_visible.
  pose proof (checkAllStreamers_visible env w) as Hv.
  destruct (fold_iterate_entities env (streamers (data_of (disk w)))
              (visible w) Hnd) as [Hids Hent].
  { intros s Hs. by apply find_hasId_NoDup. }
  split.
  - unfold entityOf in He.
    destruct (stored a (data_of (disk w))) as [s|] eqn:Es; [|discriminate].
    inversion He; subst e. apply find_hasId_elem in Es as [Hin Hid].
    apply (proj2 (Hent a) s Hin Hid).
  - replace (data_of (disk (after (checkAllStreamers env) w)))
      with (visible (after (checkAllStreamers env) w)).1.1 by reflexivity.
    rewrite Hv, Hids. exact Hnd.
Qed.

Lemma sweeps_entity (envs : list Env) (w : World) (a : string) (e : Entity) :
  NoDup (ids (data_of (disk w))) ->
  entityOf a w = Some e ->
  entityOf a (sweeps envs w) = Some (entitySteps a envs e) /\
  NoDup (ids (data_of (disk (sweeps envs w)))).
Proof.
  revert w e. induction envs as [|env envs IH]; intros w e Hnd He.
  - by split.
  - destruct (sweep_entity env w a e Hnd He) as [He' Hnd'].
    apply (IH _ _ Hnd' He').
Qed.

Lemma entityOf_parts (a : string) (w : World) (s : Streamer)
    (last : option Z) (n : nat) :
  entityOf a w = Some (s, last, n) ->
  stored a (data_of (disk w)) = Some s /\ ledger w !! a = last /\
  notifications a w = n.
Proof.
  unfold entityOf. destruct (stored a (data_of (disk w))); [|discriminate].
  intros H. by inversion H.
Qed.

Lemma decision_later (last : option Z) (t : Z) :
  (forall t0, last = Some t0 -> t0 < t) -> decision last (Some t) = true.
Proof.
  intros H. destruct last as [t0|]; [|reflexivity]. simpl.
  apply Z.gtb_lt, H. reflexivity.
Qed.

Lemma decision_not_later (t0 t : Z) :
  t <= t0 -> decision (Some t0) (Some t) = false.
Proof. intros H. simpl. rewrite Z.gtb_ltb. apply Z.ltb_ge. exact H. Qed.

(** ** Sessions and notifications *)

(** C2 as the specification has it fails: the sweep that notifies for a
    session started at the new year, one minute later, records the time of
    the notification. *)
Lemma ledger_is_not_session_start :
  let w := after (checkAllStreamers
                    (sweepEnv (liveSince newYear) (newYear + 60000)))
             aliceWatched in
  (isLive <$> stored "123" (data_of (disk w))) = Some true /\
  notifications "123" w = 1%nat /\
  ledger w !! "123" = Some (newYear + 60000) /\
  ledger w !! "123" ≠ Some newYear.
Proof. vm_compute. repeat split. discriminate. Qed.

(** C2, amended.  When a sweep sends a notification for a watched entity
    (which it does only on seeing an entity that was not live go live),
    the ledger entry of the identifier afterwards is the reading of the
    clock at the time [markNotified] ran, whatever the session start of the
    snapshot. *)
Theorem ledger_records_notification_time (env : Env) (w : World) (a : string)
    (s : Streamer) (last : option Z) (n : nat) :
  NoDup (ids (data_of (disk w))) ->
  entityOf a w = Some (s, last, n) ->
  notifications a (after (checkAllStreamers env) w) = S n ->
  ledger (after (checkAllStreamers env) w) !! a = Some (clock env a) /\
  isLive s = false /\
  exists streamInfo rest, helix_streams env a = Ok (streamInfo :: rest).
Proof.
  intros Hnd He Hn.
  destruct (sweep_entity env w a _ Hnd He) as [He' _].
  unfold entityStep in He'.
  destruct (helix_streams env a) as [|t|[|streamInfo rest]];
    try (apply entityOf_parts in He' as (_ & _ & Hc); rewrite Hn in Hc; lia).
  destruct (isLive s); cbn [negb andb] in He';
    [apply entityOf_parts in He' as (_ & _ & Hc); rewrite Hn in Hc; lia|].
  destruct (decision last (Twitch.started_at streamInfo));
    apply entityOf_parts in He' as (_ & Hl & Hc).
  - split; [exact Hl|]. split; [reflexivity|]. eauto.
  - rewrite Hn in Hc. lia.
Qed.

Lemma ledger_records_notification_time_witness :
  ledger (after (checkAllStreamers
                   (sweepEnv (liveSince newYear) (newYear + 60000)))
            aliceWatched) !! "123" = Some (newYear + 60000).
Proof.
  refine (proj1 (ledger_records_notification_time
                   (sweepEnv (liveSince newYear) (newYear + 60000))
                   aliceWatched "123" aliceRecord None 0 _ _ _)).
  - vm_compute. apply NoDup_singleton.
  - vm_compute. reflexivity.
  - vm_compute. reflexivity.
Defined.

(** C1 as the specification has it fails when the clock of the bot is
    ahead of the platform's, here by an hour: the first session started at
    the new year and is announced a minute later, when the clock reads an
    hour and a minute past; the second session starts half an hour after
    the first, which is later than T1 but not later than the ledger entry,
    and is not announced. *)
Lemma second_session_suppressed :
  newYear < newYear + 1800000 /\
  notifications "123"
    (sweeps [sweepEnv offline (newYear + 3360000);
             sweepEnv (liveSince newYear) (newYear + 3660000);
             sweepEnv offline (newYear + 5160000);
             sweepEnv (liveSince (newYear + 1800000)) (newYear + 5460000)]
       aliceWatched) = 1%nat.
Proof. vm_compute. split; reflexivity. Qed.

(** C1, amended.  For a watched entity whose ledger entry, if any, is
    earlier than T1, and which is seen offline, live with session start T1,
    offline, and live with session start T2, where T2 is later than the
    clock reading recorded for the first notification (rather than merely
    later than T1): the second sweep sends one notification, the fourth
    sends another, and no other is sent. *)
Theorem two_sessions_two_notifications (e1 e2 e3 e4 : Env) (w : World)
    (a : string) (s : Streamer) (last : option Z) (n : nat)
    (i1 i2 : Twitch.Stream) (r1 r2 : list Twitch.Stream) (T1 T2 : Z) :
  NoDup (ids (data_of (disk w))) ->
  entityOf a w = Some (s, last, n) ->
  (forall t0, last = Some t0 -> t0 < T1) ->
  helix_streams e1 a = Ok [] ->
  helix_streams e2 a = Ok (i1 :: r1) -> Twitch.started_at i1 = Some T1 ->
  helix_streams e3 a = Ok [] ->
  helix_streams e4 a = Ok (i2 :: r2) -> Twitch.started_at i2 = Some T2 ->
  clock e2 a < T2 ->
  notifications a (sweeps [e1] w) = n /\
  notifications a (sweeps [e1; e2] w) = S n /\
  notifications a (sweeps [e1; e2; e3] w) = S n /\
  notifications a (sweeps [e1; e2; e3; e4] w) = S (S n).
Proof.
  intros Hnd He Hlast H1 H2 HT1 H3 H4 HT2 Hclock.
  pose proof (decision_later last T1 Hlast) as Hd1.
  assert (decision (Some (clock e2 a)) (Some T2) = true) as Hd2.
  { apply decision_later. intros t0 [= <-]. exact Hclock. }
  repeat split;
    match goal with
    | |- notifications a (sweeps ?envs w) = _ =>
        destruct (sweeps_entity envs w a _ Hnd He) as [He' _]
    end;
    unfold entitySteps in He'; cbn [fold_left] in He';
    rewrite ?H1, ?H2, ?H3, ?H4 in He'; unfold entityStep in He';
    cbn [isLive setStatus negb andb] in He';
    rewrite ?HT1, ?Hd1 in He'; cbn [isLive setStatus negb andb] in He';
    rewrite ?HT2, ?Hd2 in He'; cbn [isLive setStatus negb andb] in He';
    apply entityOf_parts in He' as (_ & _ & Hc); exact Hc.
Qed.

Lemma two_sessions_two_notifications_witness :
  notifications "123"
    (sweeps [sweepEnv offline newYear;
             sweepEnv (liveSince newYear) (newYear + 60000);
             sweepEnv offline (newYear + 900000);
             sweepEnv (liveSince (newYear + 1000000)) (newYear + 1200000)]
       aliceWatched) = 2%nat.
Proof.
  refine (proj2 (proj2 (proj2
    (two_sessions_two_notifications
       (sweepEnv offline newYear)
       (sweepEnv (liveSince newYear) (newYear + 60000))
       (sweepEnv offline (newYear + 900000))
       (sweepEnv (liveSince (newYear + 1000000)) (newYear + 1200000))
       aliceWatched "123" _ None 0 _ _ [] [] newYear (newYear + 1000000)
       _ _ _ _ _ _ _ _ _ _)))).
  - vm_compute. apply NoDup_singleton.
  - vm_compute. reflexivity.
  - discriminate.
  - reflexivity.
  - reflexivity.
  - reflexivity.
  - reflexivity.
  - reflexivity.
  - reflexivity.
  - vm_compute. reflexivity.
Defined.

(** C3 as the specification has it fails when the clock of the bot is
    behind the platform's: the session started at the new year is announced
    when the clock reads two minutes before; after the missed blip the same
    session is later than the ledger entry and is announced again. *)
Lemma same_session_notified_twice :
  notifications "123"
    (sweeps [sweepEnv offline (newYear - 420000);
             sweepEnv (liveSince newYear) (newYear - 120000);
             sweepEnv (liveSince newYear) (newYear + 180000);
             sweepEnv offline (newYear + 480000);
             sweepEnv (liveSince newYear) (newYear + 780000)]
       aliceWatched) = 2%nat.
Proof. vm_compute. reflexivity. Qed.

(** C3, amended.  For a watched entity whose ledger entry, if any, is
    earlier than T1, and which is seen offline, live with session start T1,
    live with T1, offline, and live with T1 again: provided the clock
    reading recorded for the notification is not earlier than T1, exactly
    one notification is sent, by the sweep that first sees the entity
    live. *)
Theorem same_session_one_notification (e1 e2 e3 e4 e5 : Env) (w : World)
    (a : string) (s : Streamer) (last : option Z) (n : nat)
    (i2 i3 i5 : Twitch.Stream) (r2 r3 r5 : list Twitch.Stream) (T1 : Z) :
  NoDup (ids (data_of (disk w))) ->
  entityOf a w = Some (s, last, n) ->
  (forall t0, last = Some t0 -> t0 < T1) ->
  helix_streams e1 a = Ok [] ->
  helix_streams e2 a = Ok (i2 :: r2) -> Twitch.started_at i2 = Some T1 ->
  helix_streams e3 a = Ok (i3 :: r3) -> Twitch.started_at i3 = Some T1 ->
  helix_streams e4 a = Ok [] ->
  helix_streams e5 a = Ok (i5 :: r5) -> Twitch.started_at i5 = Some T1 ->
  T1 <= clock e2 a ->
  notifications a (sweeps [e1] w) = n /\
  notifications a (sweeps [e1; e2] w) = S n /\
  notifications a (sweeps [e1; e2; e3] w) = S n /\
  notifications a (sweeps [e1; e2; e3; e4] w) = S n /\
  notifications a (sweeps [e1; e2; e3; e4; e5] w) = S n.
Proof.
  intros Hnd He Hlast H1 H2 HT2 H3 HT3 H4 H5 HT5 Hclock.
  pose proof (decision_later last T1 Hlast) as Hd1.
  pose proof (decision_not_later (clock e2 a) T1 Hclock) as Hd2.
  repeat split;
    match goal with
    | |- notifications a (sweeps ?envs w) = _ =>
        destruct (sweeps_entity envs w a _ Hnd He) as [He' _]
    end;
    unfold entitySteps in He'; cbn [fold_left] in He';
    rewrite ?H1, ?H2, ?H3, ?H4, ?H5 in He'; unfold entityStep in He';
    cbn [isLive setStatus negb andb] in He';
    rewrite ?HT2, ?Hd1 in He'; cbn [isLive setStatus negb andb] in He';
    rewrite ?HT5, ?Hd2 in He'; cbn [isLive setStatus negb andb] in He';
    apply entityOf_parts in He' as (_ & _ & Hc); exact Hc.
Qed.

Lemma same_session_one_notification_witness :
  notifications "123"
    (sweeps [sweepEnv offline (newYear - 420000);
             sweepEnv (liveSince newYear) (newYear + 60000);
             sweepEnv (liveSince newYear) (newYear + 360000);
             sweepEnv offline (newYear + 660000);
             sweepEnv (liveSince newYear) (newYear + 960000)]
       aliceWatched) = 1%nat.
Proof.
  refine (proj2 (proj2 (proj2 (proj2
    (same_session_one_notification
       (sweepEnv offline (newYear - 420000))
       (sweepEnv (liveSince newYear) (newYear + 60000))
       (sweepEnv (liveSince newYear) (newYear + 360000))
       (sweepEnv offline (newYear + 660000))
       (sweepEnv (liveSince newYear) (newYear + 960000))
       aliceWatched "123" _ None 0 _ _ _ [] [] [] newYear
       _ _ _ _ _ _ _ _ _ _ _ _))))).
  - vm_compute. apply NoDup_singleton.
  - vm_compute. reflexivity.
  - discriminate.
  - reflexivity.
  - reflexivity.
  - reflexivity.
  - reflexivity.
  - reflexivity.
  - reflexivity.
  - reflexivity.
  - reflexivity.
  - vm_compute. discriminate.
Defined.

(** ** Failures *)

Lemma storageUnless_false {A} (f : File -> A * File) :
  storageUnless false f = storage f.
Proof. reflexivity. Qed.

Lemma forOf_ext {A} (l : list A) (f g : A -> Async unit) (w : World) :
  (forall x w, f x w = g x w) -> forOf l f w = forOf l g w.
Proof.
  intros H. revert w. induction l as [|x l IH]; intros w; [reflexivity|].
  cbn [forOf]. unfold bind. rewrite H.
  destruct (g x w) as [[[]|e] w1]; [apply IH | reflexivity].
Qed.

(** Without faults the sweep is [checkAllStreamers]. *)
Lemma checkAllStreamersUnder_NoFault (faults : string -> Fault) (env : Env)
    (w : World) :
  (forall a, faults a = NoFault) ->
  checkAllStreamersUnder faults env w = checkAllStreamers env w.
Proof.
  intros H. unfold checkAllStreamersUnder, checkAllStreamers, tryCatch, bind.
  destruct (storage getAllStreamers w) as [[l|e] w1]; [|reflexivity].
  destruct (Nat.eqb (length l) 0); [reflexivity|].
  destruct (console_log (LogChecking (length l)) w1) as [[[]|e] w2];
    [|reflexivity].
  rewrite (forOf_ext l _ (checkStreamer env)); [reflexivity|].
  intros x w'. by rewrite H.
Qed.

(** The fault-free iteration is the iteration of the sweep. *)
Lemma checkStreamerUnder_NoFault (env : Env) (s : Streamer) :
  checkStreamerUnder NoFault env s = checkStreamer env s.
Proof. reflexivity. Qed.

Lemma iterateUnder_NoFault (env : Env) (v : Visible) (s : Streamer) :
  iterateUnder NoFault env v s = iterate env v s.
Proof.
  destruct v as [[d sent] out]. unfold iterateUnder, iterate.
  cbn [inUpdate inShouldNotify inMarkNotified negb].
  rewrite orb_false_r, !andb_true_r. reflexivity.
Qed.

Lemma entityStepUnder_NoFault (r : Response) (now : Z) (e : Entity) :
  entityStepUnder NoFault r now e = entityStep r now e.
Proof.
  destruct e as [[s last] n]. unfold entityStepUnder, entityStep.
  cbn [inUpdate inShouldNotify inMarkNotified negb].
  rewrite orb_false_r.
  destruct r as [|t|[|i rest]]; cbn [failed]; try reflexivity.
  by rewrite andb_true_r.
Qed.

(** What the [try] block does under a fault: how it completes, and what
    it leaves. *)
Lemma checkStreamerTryUnder_effect (fault : Fault) (env : Env) (s : Streamer)
    (w : World) :
  exists r w',
    checkStreamerTryUnder fault env s w = (r, w') /\
    visible w' = iterateUnder fault env (visible w) s /\
    (failed (helix_streams env (id s)) || inUpdate fault = true ->
       w' = w /\ exists e, r = Throw e) /\
    (failed (helix_streams env (id s)) = false -> fault = NoFault ->
       r = Normal tt).
Proof.
  unfold visible, iterateUnder, notifies, seen.
  destruct (helix_streams env (id s)) as [|t|[|i rest]] eqn:Eh; cbn [failed orb];
    unfold checkStreamerTryUnder; unfold bind at 1; rewrite checkIfLive_eq, Eh.
  - eexists _, _. split; [reflexivity|]. split; [reflexivity|].
    split; [eauto | discriminate].
  - eexists _, _. split; [reflexivity|]. split; [reflexivity|].
    split; [eauto | discriminate].
  - destruct (inUpdate fault) eqn:Eu; unfold storageUnless at 1.
    + unfold bind, throw. eexists _, _. split; [reflexivity|].
      split; [reflexivity|]. split; [eauto|].
      intros _ ->. discriminate.
    + unfold bind, storage, ret. rewrite updateStreamerStatus_eq.
      eexists _, _. split; [reflexivity|]. cbn [andb].
      split; [simpl; by rewrite !app_nil_r|]. split; [discriminate | reflexivity].
  - destruct (inUpdate fault) eqn:Eu; unfold storageUnless at 1.
    + unfold bind, throw. eexists _, _. split; [reflexivity|].
      split; [reflexivity|]. split; [eauto|].
      intros _ ->. discriminate.
    + unfold bind at 1. unfold storage at 1. rewrite updateStreamerStatus_eq.
      destruct (isLive s) eqn:El; cbn [negb andb].
      * eexists _, _. split; [reflexivity|].
        split; [simpl; by rewrite !app_nil_r|].
        split; [discriminate | reflexivity].
      * destruct (inShouldNotify fault) eqn:Es; unfold storageUnless at 1.
        -- unfold bind, throw. eexists _, _. split; [reflexivity|].
           rewrite andb_false_r. cbn [andb].
           split; [simpl; by rewrite !app_nil_r|].
           split; [discriminate|]. intros _ ->. discriminate.
        -- unfold bind at 1. unfold storage at 1. cbn [disk set_disk].
           rewrite shouldNotify_eq. cbn [disk set_disk].
           rewrite !data_of_Some. cbn [lastNotified negb]. rewrite andb_true_r.
           destruct (decision (lastNotified (data_of (disk w)) !! id s)
                       (Twitch.started_at i)) eqn:Ed.
           ++ unfold bind at 1.
              match goal with
              | |- context [sendLiveNotification env s i ?w1] =>
                  destruct (sendLiveNotification_effect env s i w1)
                    as (w2 & E & Hd & Hn & Ho)
              end.
              rewrite E.
              destruct (inMarkNotified fault) eqn:Em; unfold storageUnless.
              ** unfold throw. eexists _, _. split; [reflexivity|].
                 cbn [andb negb]. rewrite Hd, Hn, Ho.
                 split; [reflexivity|]. split; [discriminate|].
                 intros _ ->. discriminate.
              ** unfold storage. rewrite markNotified_eq.
                 eexists _, _. split; [reflexivity|]. cbn [andb negb].
                 split; [simpl; rewrite Hd, Hn, Ho; reflexivity|].
                 split; [discriminate | reflexivity].
           ++ eexists _, _. split; [reflexivity|]. cbn [andb].
              split; [simpl; by rewrite !app_nil_r|].
              split; [discriminate | reflexivity].
Qed.

Lemma checkStreamerUnder_effect (fault : Fault) (env : Env) (s : Streamer)
    (w : World) :
  exists w',
    checkStreamerUnder fault env s w = (Normal tt, w') /\
    visible w' = iterateUnder fault env (visible w) s.
Proof.
  unfold checkStreamerUnder, tryCatch.
  destruct (checkStreamerTryUnder_effect fault env s w)
    as ([[]|e] & w' & E & Hv & _); rewrite E.
  - exists w'. by split.
  - eexists. split; [reflexivity|]. exact Hv.
Qed.

Lemma forOf_checkStreamerUnder (faults : string -> Fault) (env : Env)
    (l : list Streamer) (w : World) :
  exists w',
    forOf l (fun s => checkStreamerUnder (faults (id s)) env s) w
      = (Normal tt, w') /\
    visible w' =
      fold_left (fun v s => iterateUnder (faults (id s)) env v s) l (visible w).
Proof.
  revert w. induction l as [|s l IH]; intros w; cbn [forOf fold_left].
  - exists w. split; reflexivity.
  - destruct (checkStreamerUnder_effect (faults (id s)) env s w)
      as (w1 & E & Hv).
    destruct (IH w1) as (w2 & E2 & Hv2).
    exists w2. unfold bind. rewrite E. split; [assumption|]. by rewrite <- Hv.
Qed.

Lemma checkAllStreamersUnder_effect (faults : string -> Fault) (env : Env)
    (w : World) :
  exists w',
    checkAllStreamersUnder faults env w = (Normal tt, w') /\
    visible w' =
    fold_left (fun v s => iterateUnder (faults (id s)) env v s)
      (streamers (data_of (disk w))) (visible w).
Proof.
  unfold checkAllStreamersUnder, tryCatch.
  unfold bind at 1. unfold storage at 1. unfold getAllStreamers.
  rewrite readStorage_eq. cbn [disk set_disk].
  destruct (streamers (data_of (disk w))) as [|s l] eqn:El.
  - eexists. split; [reflexivity|]. reflexivity.
  - cbn [length Nat.eqb]. unfold bind at 1, console_log at 1.
    unfold bind at 1.
    match goal with
    | |- context [forOf (s :: l) ?body ?w1] =>
        destruct (forOf_checkStreamerUnder faults env (s :: l) w1)
          as (w2 & E & Hv)
    end.
    rewrite E. unfold console_log. eexists. split; [reflexivity|].
    unfold visible in *. simpl in *. exact Hv.
Qed.

Lemma iterateUnder_other (fault : Fault) (env : Env) (v : Visible)
    (s : Streamer) (a : string) :
  id s ≠ a -> entityIn a (iterateUnder fault env v s) = entityIn a v.
Proof.
  intros Hne. destruct v as [[d sent] out]. unfold iterateUnder.
  destruct (failed _ || inUpdate fault); [reflexivity|].
  unfold entityIn, stored. cbn [streamers lastNotified].
  rewrite mutateFirst_find by apply setStatus_id.
  destruct (decide (id s = a)) as [|_]; [contradiction|].
  assert (String.eqb a (id s) = false) as Eab by (apply String.eqb_neq; congruence).
  destruct (notifies env s d && negb (inShouldNotify fault)); cbn [andb].
  - rewrite count_snoc, Eab.
    destruct (negb (inMarkNotified fault)); [|reflexivity].
    by rewrite lookup_insert_ne by assumption.
  - by rewrite app_nil_r.
Qed.

Lemma iterateUnder_self (fault : Fault) (env : Env) (d : Data)
    (sent : list string) (out : list Message) (s : Streamer) :
  stored (id s) d = Some s ->
  entityIn (id s) (iterateUnder fault env (d, sent, out) s) =
  Some (entityStepUnder fault (helix_streams env (id s)) (clock env (id s))
          (s, lastNotified d !! id s,
           length (List.filter (String.eqb (id s)) sent))).
Proof.
  intros Hs. unfold iterateUnder, notifies, seen, entityStepUnder.
  destruct (helix_streams env (id s)) as [|t|[|i rest]] eqn:Eh; cbn [failed orb];
    try (unfold entityIn; by rewrite Hs);
    (destruct (inUpdate fault); [unfold entityIn; by rewrite Hs|]);
    unfold entityIn, stored; cbn [streamers lastNotified];
    rewrite mutateFirst_find by apply setStatus_id;
    (destruct (decide (id s = id s)) as [_|]; [|contradiction]);
    unfold stored in Hs; rewrite Hs; cbn [fmap option_fmap option_map andb].
  - by rewrite app_nil_r.
  - destruct (negb (isLive s)), (decision _ _), (inShouldNotify fault),
      (inMarkNotified fault); cbn [andb negb];
      rewrite ?app_nil_r, ?count_snoc, ?String.eqb_refl, ?lookup_insert_eq;
      reflexivity.
Qed.

Lemma fold_iterateUnder_entities (faults : string -> Fault) (env : Env)
    (l : list Streamer) (v : Visible) :
  NoDup (map id l) ->
  (forall s, s ∈ l -> stored (id s) v.1.1 = Some s) ->
  forall a,
    (a ∉ map id l ->
       entityIn a (fold_left (fun v s => iterateUnder (faults (id s)) env v s) l v)
         = entityIn a v) /\
    (forall s, s ∈ l -> id s = a ->
       entityIn a (fold_left (fun v s => iterateUnder (faults (id s)) env v s) l v)
       = Some (entityStepUnder (faults a) (helix_streams env a) (clock env a)
                 (s, lastNotified v.1.1 !! a,
                  length (List.filter (String.eqb a) v.1.2)))).
Proof.
  revert v. induction l as [|x l IH]; intros v Hnd Hst a; cbn [fold_left].
  - split; [reflexivity|]. intros s Hs. inversion Hs.
  - cbn [map] in Hnd. apply NoDup_cons in Hnd as [Hx Hnd].
    assert (forall s, s ∈ l -> id x ≠ id s) as Hdiff.
    { intros s Hs E. apply Hx. rewrite E. apply list_elem_of_fmap. eauto. }
    assert (forall s, s ∈ l ->
              stored (id s) (iterateUnder (faults (id x)) env v x).1.1 = Some s)
      as Hst'.
    { intros s Hs.
      rewrite (entityIn_stored (id s) v (iterateUnder (faults (id x)) env v x)).
      - apply Hst. by right.
      - apply iterateUnder_other. by apply Hdiff. }
    pose proof (IH (iterateUnder (faults (id x)) env v x) Hnd Hst') as Hent.
    split.
    + cbn [map]. rewrite not_elem_of_cons. intros [Ha Hl].
      rewrite (proj1 (Hent a) Hl). apply iterateUnder_other. congruence.
    + intros s Hs Hid. apply elem_of_cons in Hs as [->|Hs].
      * subst a. rewrite (proj1 (Hent (id x)) Hx).
        destruct v as [[d sent] out]. apply iterateUnder_self.
        apply (Hst x). by left.
      * subst a. rewrite (proj2 (Hent (id s)) s Hs eq_refl).
        pose proof (iterateUnder_other (faults (id x)) env v x (id s)
                      (Hdiff s Hs)) as Ho.
        pose proof (Hst s ltac:(by right)) as Hs'.
        destruct v as [[d sent] out]. cbn [fst snd] in Hs'.
        destruct (iterateUnder (faults (id x)) env (d, sent, out) x)
          as [[d' sent'] out'] eqn:Ei.
        unfold entityIn in Ho. rewrite Hs' in Ho.
        destruct (stored (id s) d'); [|discriminate].
        cbn [fst snd]. injection Ho as _ -> ->. reflexivity.
Qed.

(** A sweep under faults does to each watched entity what
    [entityStepUnder] says for its own lookup and its own fault. *)
Lemma sweepUnder_entity (faults : string -> Fault) (env : Env) (w : World)
    (a : string) (e : Entity) :
  NoDup (ids (data_of (disk w))) ->
  entityOf a w = Some e ->
  entityOf a (after (checkAllStreamersUnder faults env) w) =
    Some (entityStepUnder (faults a) (helix_streams env a) (clock env a) e).
Proof.
  intros Hnd He. rewrite entityOf_visible. unfold after.
  destruct (checkAllStreamersUnder_effect faults env w) as (w' & E & Hv).
  rewrite E. cbn [snd]. rewrite Hv.
  unfold entityOf in He.
  destruct (stored a (data_of (disk w))) as [s|] eqn:Es; [|discriminate].
  inversion He; subst e. apply find_hasId_elem in Es as [Hin Hid].
  refine (proj2 (fold_iterateUnder_entities faults env
                   (streamers (data_of (disk w))) (visible w) Hnd _ a)
            s Hin Hid).
  intros x Hx. by apply find_hasId_NoDup.
Qed.

(** C9 as the specification has it fails for a failure of the processing
    that comes after the status update.  Alice and bob are watched and not
    live, both are seen live, and [shouldNotify] throws in the iteration of
    alice: the iteration fails (the console has its error), the sweep goes
    on with bob, who is announced, and alice, who is not announced, is
    stored as live all the same. *)
Lemma late_failure_changes_state :
  let w := after (checkAllStreamersUnder (onlyAlice FaultInShouldNotify)
                    (sweepEnv (liveSince newYear) (newYear + 60000)))
             bothWatched in
  console w =
    [LogChecking 2; LogErrorChecking "Alice" StorageFault;
     LogSent "Bob" "home"; LogFinished] /\
  (isLive <$> stored "123" (data_of (disk bothWatched))) = Some false /\
  (isLive <$> stored "123" (data_of (disk w))) = Some true /\
  notifications "123" w = 0%nat /\
  notifications "456" w = 1%nat.
Proof. vm_compute. repeat split. Qed.

(** C9, amended.  In a sweep over a store without duplicate identifiers,
    whatever lookups fail and whatever storage calls throw in the
    iterations, the sweep returns normally and every watched entity is
    treated according to its own lookup and its own fault only: an entity
    whose iteration has no fault is processed as in a sweep without
    faults (left alone if its lookup failed, refreshed and announced by
    the policy otherwise); an entity whose lookup failed or whose status
    update threw has its record, ledger entry and notifications as before;
    an entity for which [shouldNotify] threw has been stored as live with
    its stream, without notification; one for which [markNotified] threw
    has been stored as live and announced, without ledger entry.  The
    [try] block throws at once, leaving the world as it was, when the
    lookup fails or the update throws, and does not throw when the lookup
    answers and no storage call throws.  When no storage call throws at
    all the sweep is [checkAllStreamers]. *)
Theorem failure_is_isolated (faults : string -> Fault) (env : Env)
    (w : World) :
  NoDup (ids (data_of (disk w))) ->
  let w' := after (checkAllStreamersUnder faults env) w in
  fst (checkAllStreamersUnder faults env w) = Normal tt /\
  (forall a e, entityOf a w = Some e -> faults a = NoFault ->
     entityOf a w' = Some (entityStep (helix_streams env a) (clock env a) e)) /\
  (forall a e, entityOf a w = Some e ->
     failed (helix_streams env a) = true \/ faults a = FaultInUpdate ->
     entityOf a w' = Some e) /\
  (forall a s last n streamInfo rest,
     entityOf a w = Some (s, last, n) ->
     helix_streams env a = Ok (streamInfo :: rest) ->
     isLive s = false ->
     (faults a = FaultInShouldNotify ->
        entityOf a w' = Some (setStatus true (Some streamInfo) s, last, n)) /\
     (faults a = FaultInMarkNotified ->
        decision last (Twitch.started_at streamInfo) = true ->
        entityOf a w' = Some (setStatus true (Some streamInfo) s, last, S n))) /\
  (forall s w0,
     (failed (helix_streams env (id s)) = true \/
      faults (id s) = FaultInUpdate ->
        exists e, checkStreamerTryUnder (faults (id s)) env s w0 = (Throw e, w0)) /\
     (failed (helix_streams env (id s)) = false -> faults (id s) = NoFault ->
        fst (checkStreamerTryUnder (faults (id s)) env s w0) = Normal tt)) /\
  ((forall a, faults a = NoFault) ->
     checkAllStreamersUnder faults env w = checkAllStreamers env w).
Proof.
  intros Hnd w'. subst w'.
  split; [|split; [|split; [|split; [|split]]]];
    [| | | | |apply checkAllStreamersUnder_NoFault].
  - destruct (checkAllStreamersUnder_effect faults env w) as (w' & E & _).
    by rewrite E.
  - intros a e He Hf. rewrite (sweepUnder_entity faults env w a e Hnd He), Hf.
    by rewrite entityStepUnder_NoFault.
  - intros a e He Hcase. rewrite (sweepUnder_entity faults env w a e Hnd He).
    destruct e as [[s last] n]. unfold entityStepUnder.
    destruct Hcase as [->| ->]; [reflexivity|]. cbn [inUpdate].
    by rewrite orb_true_r.
  - intros a s last n i rest He Hh Hl. split.
    + intros Hf. rewrite (sweepUnder_entity faults env w a _ Hnd He), Hf, Hh.
      unfold entityStepUnder. cbn [failed inUpdate inShouldNotify orb negb].
      by rewrite andb_false_r.
    + intros Hf Hd. rewrite (sweepUnder_entity faults env w a _ Hnd He), Hf, Hh.
      unfold entityStepUnder.
      cbn [failed inUpdate inShouldNotify inMarkNotified orb negb].
      by rewrite Hl, Hd.
  - intros s w0.
    destruct (checkStreamerTryUnder_effect (faults (id s)) env s w0)
      as (r & w1 & E & _ & Hthrow & Hok).
    rewrite E. split.
    + intros Hcase.
      destruct Hthrow as [-> [e ->]]; [|eauto].
      destruct Hcase as [->| ->]; [reflexivity | apply orb_true_r].
    + intros Hf Hn. cbn [fst]. by apply Hok.
Qed.

Lemma failure_is_isolated_witness :
  entityOf "456"
    (after (checkAllStreamersUnder (onlyAlice FaultInMarkNotified)
              aliceUnreachable) bothWatched) =
  Some (entityStep (helix_streams aliceUnreachable "456")
          (clock aliceUnreachable "456")
          ({| id := "456"; username := "bob"; displayName := "Bob";
              profileImageUrl := "https://static-cdn.jtvnw.net/bob.png";
              addedAt := 2; isLive := false; currentStream := None |},
           None, 0%nat)).
Proof.
  refine (proj1 (proj2 (failure_is_isolated (onlyAlice FaultInMarkNotified)
                          aliceUnreachable bothWatched _)) "456" _ _ _).
  - vm_compute. apply NoDup_cons. split; [|apply NoDup_singleton].
    intros H. apply list_elem_of_singleton in H. discriminate.
  - vm_compute. reflexivity.
  - reflexivity.
Defined.

(** In that sweep the lookup for alice is rejected and bob, who comes after
    her in the list, is processed: he is marked live, announced once and
    entered in the ledger, while alice is as before. *)
Example failure_is_isolated_bob :
  let w := after (checkAllStreamers aliceUnreachable) bothWatched in
  (isLive <$> stored "456" (data_of (disk w))) = Some true /\
  notifications "456" w = 1%nat /\
  ledger w !! "456" = Some (newYear + 60000) /\
  (isLive <$> stored "123" (data_of (disk w))) = Some false /\
  ledger w !! "123" = None.
Proof. vm_compute. repeat split. Qed.

Lemma flat_map_delivered_deaf (env : Env) (s : Streamer) (i : Twitch.Stream)
    (gs : list Guild) :
  Forall (fun g => send_resolves g = false) gs ->
  flat_map (delivered env s i) gs = [].
Proof.
  induction 1 as [|g gs Hg Hgs IH]; [reflexivity|].
  cbn [flat_map]. rewrite IH. unfold delivered. rewrite Hg.
  by destruct (channel g), (embedThrows env s i).
Qed.

(** C10.  [sendLiveNotification] returns normally whatever the guilds and
    the builders do and does not touch the file; when every send is
    rejected no message is added.  So an iteration that sees a stream for a
    record that was not live, when [shouldNotify] says yes, returns
    normally with the notification counted and the ledger entry of the
    identifier set to the reading of the clock, whatever became of the
    deliveries. *)
Theorem dispatch_never_throws (env : Env) (s : Streamer)
    (streamInfo : Twitch.Stream) (w : World) :
  fst (sendLiveNotification env s streamInfo w) = Normal tt /\
  disk (after (sendLiveNotification env s streamInfo) w) = disk w /\
  (Forall (fun g => send_resolves g = false) (guilds env) ->
   outbox (after (sendLiveNotification env s streamInfo) w) = outbox w) /\
  (forall rest,
     helix_streams env (id s) = Ok (streamInfo :: rest) ->
     isLive s = false ->
     decision (ledger w !! id s) (Twitch.started_at streamInfo) = true ->
     fst (checkStreamer env s w) = Normal tt /\
     notifications (id s) (after (checkStreamer env s) w) =
       S (notifications (id s) w) /\
     ledger (after (checkStreamer env s) w) !! id s = Some (clock env (id s))).
Proof.
  unfold after.
  destruct (sendLiveNotification_effect env s streamInfo w)
    as (w' & E & Hd & Hn & Ho).
  rewrite E. cbn [fst snd].
  split; [reflexivity|]. split; [assumption|]. split.
  - intros Hdeaf. rewrite Ho, flat_map_delivered_deaf by assumption.
    apply app_nil_r.
  - intros rest Hh Hlive Hdec. unfold ledger in Hdec.
    destruct (checkStreamer_effect env s w) as (w1 & E1 & Hv & _).
    rewrite E1. cbn [fst snd]. split; [reflexivity|].
    unfold notifications, ledger.
    replace (dispatched w1) with (visible w1).1.2 by reflexivity.
    replace (data_of (disk w1)) with (visible w1).1.1 by reflexivity.
    rewrite Hv. unfold visible, iterate, notifies, seen.
    rewrite Hh. cbn [failed]. rewrite Hlive, Hdec.
    cbn [negb andb fst snd lastNotified]. split.
    + rewrite count_snoc, String.eqb_refl. reflexivity.
    + apply lookup_insert_eq.
Qed.

Lemma dispatch_never_throws_witness :
  fst (checkStreamer nobodyListens aliceRecord aliceWatched) = Normal tt /\
  notifications "123"
    (after (checkStreamer nobodyListens aliceRecord) aliceWatched) = 1%nat /\
  ledger (after (checkStreamer nobodyListens aliceRecord) aliceWatched) !! "123"
    = Some (newYear + 60000).
Proof.
  apply (proj2 (proj2 (proj2
           (dispatch_never_throws nobodyListens aliceRecord (streamSince newYear)
              aliceWatched)))
         []); reflexivity.
Defined.

(** In that iteration nothing was delivered. *)
Example dispatch_never_throws_nothing_delivered :
  outbox (after (checkStreamer nobodyListens aliceRecord) aliceWatched) = [].
Proof. vm_compute. reflexivity. Qed.

(** * Further properties of the storage functions *)

Lemma stored_None (a : string) (d : Data) : stored a d = None <-> a ∉ ids d.
Proof.
  unfold stored, ids. rewrite <- existsb_hasId_false.
  induction (streamers d) as [|s l IH]; simpl; [tauto|].
  destruct (hasId a s); simpl; [split; discriminate | exact IH].
Qed.

Lemma stored_Some_elem (a : string) (d : Data) (s : Streamer) :
  stored a d = Some s -> a ∈ ids d /\ id s = a.
Proof.
  intros H. apply find_hasId_elem in H as [Hin Hid]. split; [|assumption].
  unfold ids. rewrite <- Hid. apply list_elem_of_fmap. eauto.
Qed.

Lemma mutateFirst_filter_other (a c : string) (f : Streamer -> Streamer)
    (l : list Streamer) :
  (forall s, id (f s) = id s) -> c ≠ a ->
  List.filter (hasId c) (snd (mutateFirst (hasId a) f l)) = List.filter (hasId c) l.
Proof.
  intros Hf Hne. induction l as [|s l IH]; simpl; [reflexivity|].
  destruct (hasId a s) eqn:Ea; simpl.
  - apply hasId_true in Ea.
    assert (hasId c (f s) = false) as ->
      by (apply hasId_false; rewrite Hf; congruence).
    assert (hasId c s = false) as -> by (apply hasId_false; congruence).
    reflexivity.
  - destruct (mutateFirst (hasId a) f l); simpl in *. by rewrite IH.
Qed.

Lemma mutateFirst_twice (a : string) (f : Streamer -> Streamer)
    (l : list Streamer) :
  (forall s, id (f s) = id s) -> (forall s, f (f s) = f s) ->
  snd (mutateFirst (hasId a) f (snd (mutateFirst (hasId a) f l))) =
  snd (mutateFirst (hasId a) f l).
Proof.
  intros Hid Hff. induction l as [|s l IH]; simpl; [reflexivity|].
  destruct (hasId a s) eqn:Ea; simpl.
  - assert (hasId a (f s) = true) as ->.
    { apply hasId_true. rewrite Hid. by apply hasId_true. }
    simpl. by rewrite Hff.
  - destruct (mutateFirst (hasId a) f l) as [r l'] eqn:E; simpl in *.
    rewrite Ea. destruct (mutateFirst (hasId a) f l'); simpl in *. by rewrite IH.
Qed.

Lemma setStatus_twice (b : bool) (i : option Twitch.Stream) (s : Streamer) :
  setStatus b i (setStatus b i s) = setStatus b i s.
Proof. reflexivity. Qed.

(** X1.  [updateStreamerStatus] on an identifier that is not stored returns
    [null] and leaves the content of the file as it is; on a stored one it
    returns the first record with that identifier, with the flag set and
    the stream attached or cleared, and that record is what the file holds
    for the identifier afterwards.  In both cases the identifiers and their
    order, the ledger, and every record with another identifier are as
    before. *)
Theorem updateStreamerStatus_spec (a : string) (b : bool)
    (i : option Twitch.Stream) (file : File) :
  let before := data_of file in
  let after := data_of (snd (updateStreamerStatus a b i file)) in
  (a ∉ ids before ->
     fst (updateStreamerStatus a b i file) = None /\ after = before) /\
  (forall s, stored a before = Some s ->
     fst (updateStreamerStatus a b i file) = Some (setStatus b i s) /\
     stored a after = Some (setStatus b i s) /\
     identity (setStatus b i s) = identity s /\
     isLive (setStatus b i s) = b) /\
  ids after = ids before /\
  lastNotified after = lastNotified before /\
  (forall c, c ≠ a ->
     List.filter (hasId c) (streamers after) =
     List.filter (hasId c) (streamers before)).
Proof.
  rewrite updateStreamerStatus_eq. cbn [fst snd]. rewrite data_of_Some.
  split; [|split; [|split; [|split]]].
  - intros Ha. apply stored_None in Ha. rewrite Ha. split; [reflexivity|].
    unfold stored in Ha. rewrite mutateFirst_missing by assumption.
    by destruct (data_of file).
  - intros s Hs. rewrite Hs. split; [reflexivity|]. split; [|by split].
    unfold stored in *. cbn [streamers].
    rewrite mutateFirst_find by apply setStatus_id.
    destruct (decide (a = a)); [|contradiction]. by rewrite Hs.
  - unfold ids. cbn [streamers]. apply mutateFirst_ids, setStatus_id.
  - reflexivity.
  - intros c Hc. cbn [streamers].
    apply mutateFirst_filter_other; [apply setStatus_id | assumption].
Qed.

Lemma updateStreamerStatus_spec_witness :
  fst (updateStreamerStatus "456" true (Some liveUndated) (disk aliceWatched))
    = None /\
  data_of (snd (updateStreamerStatus "456" true (Some liveUndated)
                  (disk aliceWatched))) = data_of (disk aliceWatched).
Proof.
  apply (proj1 (updateStreamerStatus_spec "456" true (Some liveUndated)
                  (disk aliceWatched))).
  vm_compute. intros H. apply list_elem_of_singleton in H. discriminate.
Defined.

(** X2.  Repeating a call of the store with the same arguments changes
    nothing more: a second [updateStreamerStatus] returns the same record
    and the same file, a second [addStreamer] returns false and a second
    [removeStreamer] returns false, each leaving the file as the first call
    left it. *)
Theorem store_calls_idempotent (file : File) :
  (forall a b i,
     updateStreamerStatus a b i (snd (updateStreamerStatus a b i file)) =
     updateStreamerStatus a b i file) /\
  (forall now now' u,
     addStreamer now' u (snd (addStreamer now u file)) =
     (false, snd (addStreamer now u file))) /\
  (forall a,
     removeStreamer a (snd (removeStreamer a file)) =
     (false, snd (removeStreamer a file))).
Proof.
  split; [|split].
  - intros a b i. rewrite !updateStreamerStatus_eq. cbn [fst snd].
    rewrite data_of_Some. unfold stored. cbn [streamers lastNotified].
    rewrite mutateFirst_find by apply setStatus_id.
    destruct (decide (a = a)); [|contradiction].
    rewrite mutateFirst_twice by (apply setStatus_id || apply setStatus_twice).
    destruct (List.find (hasId a) (streamers (data_of file))); reflexivity.
  - intros now now' u. rewrite (addStreamer_eq now u file).
    destruct (existsb (hasId (Twitch.id u)) (streamers (data_of file))) eqn:E;
      cbn [snd]; rewrite addStreamer_eq, data_of_Some.
    + by rewrite E.
    + cbn [streamers]. rewrite existsb_app. cbn [existsb].
      assert (hasId (Twitch.id u)
                {| id := Twitch.id u; username := Twitch.login u;
                   displayName := Twitch.display_name u;
                   profileImageUrl := Twitch.profile_image_url u;
                   addedAt := now; isLive := false; currentStream := None |}
              = true) as -> by (by apply hasId_true).
      by rewrite orb_true_r.
  - intros a. rewrite (removeStreamer_eq a file). cbn [snd].
    rewrite removeStreamer_eq, data_of_Some. cbn [streamers lastNotified].
    rewrite (filter_others_id a (List.filter _ _))
      by apply filter_others_absent.
    rewrite Nat.ltb_irrefl. f_equal. f_equal. f_equal.
    apply delete_id, lookup_delete_eq.
Qed.

(** X3.  An identifier that is neither stored nor in the ledger can be
    added and removed again: [addStreamer] returns true, [removeStreamer]
    then returns true, and the content of the file is what it was. *)
Theorem add_then_remove (now : Z) (u : Twitch.User) (file : File) :
  Twitch.id u ∉ ids (data_of file) ->
  lastNotified (data_of file) !! Twitch.id u = None ->
  fst (addStreamer now u file) = true /\
  fst (removeStreamer (Twitch.id u) (snd (addStreamer now u file))) = true /\
  data_of (snd (removeStreamer (Twitch.id u) (snd (addStreamer now u file))))
    = data_of file.
Proof.
  intros Hfresh Hled. rewrite addStreamer_eq.
  assert (existsb (hasId (Twitch.id u)) (streamers (data_of file)) = false)
    as -> by (by apply existsb_hasId_false).
  cbn [fst snd]. split; [reflexivity|].
  rewrite removeStreamer_eq, data_of_Some. cbn [fst snd streamers lastNotified].
  rewrite List.filter_app. cbn [List.filter].
  assert (hasId (Twitch.id u)
            {| id := Twitch.id u; username := Twitch.login u;
               displayName := Twitch.display_name u;
               profileImageUrl := Twitch.profile_image_url u;
               addedAt := now; isLive := false; currentStream := None |}
          = true) as -> by (by apply hasId_true).
  cbn [negb]. rewrite app_nil_r, filter_others_id by assumption.
  rewrite length_app. cbn [length]. split.
  - apply Nat.ltb_lt. lia.
  - rewrite delete_id by assumption. by destruct (data_of file).
Qed.

Lemma add_then_remove_witness :
  data_of (snd (removeStreamer "456"
                  (snd (addStreamer 2 bob (disk aliceWatched)))))
  = data_of (disk aliceWatched).
Proof.
  refine (proj2 (proj2 (add_then_remove 2 bob (disk aliceWatched) _ _))).
  - vm_compute. intros H. apply list_elem_of_singleton in H. discriminate.
  - reflexivity.
Defined.

(** X4.  After [markNotified] at clock reading [now], [shouldNotify] for
    that identifier says yes exactly for a session start that is a valid
    date later than [now] (an equal or missing one is refused); the answer
    for any other identifier and the stored records are as before. *)
Theorem markNotified_then_shouldNotify (now : Z) (a : string) (file : File) :
  (forall start,
     fst (shouldNotify a start (snd (markNotified now a file))) = true <->
     exists t, start = Some t /\ now < t) /\
  (forall b start, b ≠ a ->
     fst (shouldNotify b start (snd (markNotified now a file))) =
     fst (shouldNotify b start file)) /\
  streamers (data_of (snd (markNotified now a file))) = streamers (data_of file).
Proof.
  rewrite markNotified_eq. cbn [snd]. split; [|split].
  - intros start. rewrite shouldNotify_eq, data_of_Some.
    cbn [fst lastNotified]. rewrite lookup_insert_eq.
    destruct start as [t|]; simpl.
    + rewrite Z.gtb_lt. split; [eauto|]. by intros (t' & [= <-] & H).
    + split; [discriminate|]. by intros (t' & H & _).
  - intros b start Hne. rewrite !shouldNotify_eq, data_of_Some.
    cbn [fst lastNotified]. by rewrite lookup_insert_ne by congruence.
  - reflexivity.
Qed.

(** * Further properties of the sweep *)

Lemma mutateFirst_map (a : string) (f : Streamer -> Streamer) {B}
    (g : Streamer -> B) (l : list Streamer) :
  (forall s, g (f s) = g s) ->
  map g (snd (mutateFirst (hasId a) f l)) = map g l.
Proof.
  intros Hf. induction l as [|s l IH]; simpl; [reflexivity|].
  destruct (hasId a s); simpl; [by rewrite Hf|].
  destruct (mutateFirst (hasId a) f l); simpl in *. by rewrite IH.
Qed.

Lemma flat_map_delivered_uncounted (env : Env) (s : Streamer)
    (i : Twitch.Stream) (gs : list Guild) :
  Twitch.viewer_count i = None -> flat_map (delivered env s i) gs = [].
Proof.
  intros H. induction gs as [|g gs IH]; [reflexivity|].
  cbn [flat_map]. rewrite IH. unfold delivered, embedThrows. rewrite H.
  by destruct (channel g), (embed_refused env s i).
Qed.

(** What one iteration leaves alone, and what it may add. *)
Lemma iterate_frame (env : Env) (v : Visible) (s : Streamer) :
  map identity (streamers (iterate env v s).1.1) = map identity (streamers v.1.1) /\
  (forall k, is_Some (lastNotified v.1.1 !! k) ->
             is_Some (lastNotified (iterate env v s).1.1 !! k)) /\
  (forall k, lastNotified v.1.1 !! k = Some (clock env k) ->
             lastNotified (iterate env v s).1.1 !! k = Some (clock env k)) /\
  (exists new,
     (iterate env v s).1.2 = v.1.2 ++ new /\
     (new = [] /\ lastNotified (iterate env v s).1.1 = lastNotified v.1.1 \/
      new = [id s] /\
      lastNotified (iterate env v s).1.1 =
        <[id s := clock env (id s)]> (lastNotified v.1.1))) /\
  (exists msgs, (iterate env v s).2 = v.2 ++ msgs).
Proof.
  destruct v as [[d sent] out]. unfold iterate.
  destruct (failed (helix_streams env (id s))); cbn [fst snd].
  - split; [reflexivity|]. split; [auto|]. split; [auto|]. split.
    + exists []. rewrite app_nil_r. auto.
    + exists []. by rewrite app_nil_r.
  - cbn [streamers lastNotified].
    split; [by apply mutateFirst_map|].
    destruct (notifies env s d).
    + split; [|split; [|split]].
      * intros k Hk. destruct (decide (id s = k)) as [->|Hne].
        -- rewrite lookup_insert_eq. eauto.
        -- by rewrite lookup_insert_ne.
      * intros k Hk. destruct (decide (id s = k)) as [->|Hne].
        -- by rewrite lookup_insert_eq.
        -- by rewrite lookup_insert_ne.
      * exists [id s]. auto.
      * eauto.
    + split; [auto|]. split; [auto|]. split.
      * exists []. auto.
      * eauto.
Qed.

Lemma fold_iterate_frame (env : Env) (l : list Streamer) (v : Visible) :
  map identity (streamers (fold_left (iterate env) l v).1.1)
    = map identity (streamers v.1.1) /\
  (forall k, is_Some (lastNotified v.1.1 !! k) ->
             is_Some (lastNotified (fold_left (iterate env) l v).1.1 !! k)) /\
  (forall k, lastNotified v.1.1 !! k = Some (clock env k) ->
             lastNotified (fold_left (iterate env) l v).1.1 !! k
               = Some (clock env k)) /\
  (forall k, is_Some (lastNotified (fold_left (iterate env) l v).1.1 !! k) ->
             is_Some (lastNotified v.1.1 !! k) \/ k ∈ map id l) /\
  (exists new,
     (fold_left (iterate env) l v).1.2 = v.1.2 ++ new /\
     forall k, k ∈ new ->
       k ∈ map id l /\
       lastNotified (fold_left (iterate env) l v).1.1 !! k = Some (clock env k)) /\
  (exists msgs, (fold_left (iterate env) l v).2 = v.2 ++ msgs).
Proof.
  revert v. induction l as [|x l IH]; intros v; cbn [fold_left].
  - split; [reflexivity|]. split; [auto|]. split; [auto|]. split; [auto|].
    split.
    + exists []. rewrite app_nil_r. split; [reflexivity|]. intros k Hk.
      inversion Hk.
    + exists []. by rewrite app_nil_r.
  - destruct (iterate_frame env v x) as (Hid & Hmono & Hclock & Hnew & Hout).
    destruct (IH (iterate env v x))
      as (Hid' & Hmono' & Hclock' & Hdom' & Hnew' & Hout').
    split; [by rewrite Hid', Hid|]. split; [auto|]. split; [auto|].
    destruct Hnew as (new & Esent & Hcases).
    split; [|split].
    + intros k Hk. cbn [map]. rewrite elem_of_cons.
      destruct (Hdom' k Hk) as [Hk'|Hk']; [|auto].
      destruct Hcases as [[_ El]|[_ El]]; rewrite El in Hk'; [auto|].
      destruct (decide (id x = k)) as [->|Hne]; [auto|].
      rewrite lookup_insert_ne in Hk' by assumption. auto.
    + destruct Hnew' as (new' & Esent' & Hnew').
      exists (new ++ new'). rewrite Esent', Esent, app_assoc.
      split; [reflexivity|]. intros k Hk. cbn [map]. rewrite elem_of_cons.
      apply elem_of_app in Hk as [Hk|Hk].
      * destruct Hcases as [[-> _]|[-> El]]; [inversion Hk|].
        apply list_elem_of_singleton in Hk. subst k. split; [auto|].
        apply Hclock'. rewrite El. apply lookup_insert_eq.
      * destruct (Hnew' k Hk). auto.
    + destruct Hout as (m & Em). destruct Hout' as (m' & Em').
      exists (m ++ m'). by rewrite Em', Em, app_assoc.
Qed.

Lemma ids_identity (d d' : Data) :
  map identity (streamers d') = map identity (streamers d) -> ids d' = ids d.
Proof.
  intros H. unfold ids.
  change id with (fun s => (identity s).1.1.1.1).
  rewrite <- !(map_map identity (fun p => p.1.1.1.1)). by rewrite H.
Qed.

(** X5.  A sweep never adds, removes, reorders or renames a watched
    entity; it never drops a ledger entry; every notification it sends is
    for a watched identifier, whose ledger entry is afterwards the clock
    reading of that sweep; and what was sent and delivered before stays. *)
Theorem sweep_frame (env : Env) (w : World) :
  let w' := after (checkAllStreamers env) w in
  map identity (streamers (data_of (disk w')))
    = map identity (streamers (data_of (disk w))) /\
  (forall k, is_Some (ledger w !! k) -> is_Some (ledger w' !! k)) /\
  (exists new,
     dispatched w' = dispatched w ++ new /\
     forall k, k ∈ new ->
       k ∈ ids (data_of (disk w)) /\ ledger w' !! k = Some (clock env k)) /\
  (exists msgs, outbox w' = outbox w ++ msgs).
Proof.
  pose proof (checkAllStreamers_visible env w) as Hv.
  destruct (fold_iterate_frame env (streamers (data_of (disk w))) (visible w))
    as (Hid & Hmono & _ & _ & Hnew & Hout).
  rewrite <- Hv in Hid, Hmono, Hnew, Hout.
  cbn zeta. unfold ledger. split; [exact Hid|]. split; [exact Hmono|].
  split; [exact Hnew | exact Hout].
Qed.

Lemma applyOp_ledgerWatched (op : Op) (file : File) :
  ledgerWatched (data_of file) -> ledgerWatched (data_of (applyOp file op)).
Proof.
  unfold ledgerWatched, ids. intros H k.
  destruct op as [now u|a|a b i]; cbn [applyOp].
  - rewrite addStreamer_eq. destruct (existsb _ _); cbn [snd];
      rewrite ?data_of_Some; [apply H|].
    cbn [streamers lastNotified]. intros Hk. rewrite map_app.
    apply elem_of_app. left. by apply H.
  - rewrite removeStreamer_eq. cbn [snd]. rewrite data_of_Some.
    cbn [streamers lastNotified]. intros Hk.
    destruct (decide (a = k)) as [->|Hne].
    + rewrite lookup_delete_eq in Hk. by destruct Hk.
    + rewrite lookup_delete_ne in Hk by assumption.
      apply H in Hk. apply list_elem_of_fmap in Hk as (s & -> & Hs).
      apply list_elem_of_fmap. exists s. split; [reflexivity|].
      apply list_elem_of_In, List.filter_In. split; [by apply list_elem_of_In|].
      assert (hasId a s = false) as -> by (apply hasId_false; congruence).
      reflexivity.
  - rewrite updateStreamerStatus_eq. cbn [snd]. rewrite data_of_Some.
    cbn [streamers lastNotified].
    rewrite mutateFirst_ids by apply setStatus_id. apply H.
Qed.

Lemma sweep_ledgerWatched (env : Env) (w : World) :
  ledgerWatched (data_of (disk w)) ->
  ledgerWatched (data_of (disk (after (checkAllStreamers env) w))).
Proof.
  intros H k Hk.
  pose proof (checkAllStreamers_visible env w) as Hv.
  destruct (fold_iterate_frame env (streamers (data_of (disk w))) (visible w))
    as (Hid & _ & _ & Hdom & _ & _).
  rewrite <- Hv in Hid, Hdom. apply ids_identity in Hid.
  change (visible (after (checkAllStreamers env) w)).1.1
    with (data_of (disk (after (checkAllStreamers env) w))) in Hid, Hdom.
  rewrite Hid. destruct (Hdom k Hk) as [Hk'|Hk']; [by apply H | exact Hk'].
Qed.

(** X6.  If every ledger entry belongs to a watched identifier, it is still
    so after any run of store calls and sweeps, one after the other: run in
    sequence, the storage functions and the sweep never leave a ledger
    entry for an identifier that is not watched. *)
Theorem ledger_entries_are_watched (events : list Event) (w : World) :
  ledgerWatched (data_of (disk w)) ->
  ledgerWatched (data_of (disk (history events w))).
Proof.
  revert w. induction events as [|e events IH]; intros w H; [exact H|].
  cbn [history fold_left]. apply IH. destruct e as [op|env]; cbn [happen].
  - cbn [disk set_disk]. by apply applyOp_ledgerWatched.
  - by apply sweep_ledgerWatched.
Qed.

Lemma ledger_entries_are_watched_witness :
  ledgerWatched
    (data_of (disk (history
       [Command (Add 1 alice);
        Tick (sweepEnv (liveSince newYear) (newYear + 60000));
        Command (Remove "123")] freshWorld))).
Proof.
  apply ledger_entries_are_watched.
  intros k [x Hx]. vm_compute in Hx. discriminate.
Defined.

Lemma sweep_ids (env : Env) (w : World) :
  ids (data_of (disk (after (checkAllStreamers env) w))) = ids (data_of (disk w)).
Proof.
  pose proof (checkAllStreamers_visible env w) as Hv.
  destruct (fold_iterate_frame env (streamers (data_of (disk w))) (visible w))
    as (Hid & _).
  rewrite <- Hv in Hid. by apply ids_identity in Hid.
Qed.

Lemma iterate_metadata (env : Env) (v : Visible) (s : Streamer) :
  Forall metadataIffLive (streamers v.1.1) ->
  Forall metadataIffLive (streamers (iterate env v s).1.1).
Proof.
  destruct v as [[d sent] out]. unfold iterate. intros H.
  destruct (failed _); [exact H|]. cbn [fst streamers].
  apply mutateFirst_Forall; [|exact H].
  intros x. apply setStatus_metadata. intros Hb.
  by apply bool_decide_eq_true in Hb.
Qed.

Lemma fold_iterate_metadata (env : Env) (l : list Streamer) (v : Visible) :
  Forall metadataIffLive (streamers v.1.1) ->
  Forall metadataIffLive (streamers (fold_left (iterate env) l v).1.1).
Proof.
  revert v. induction l as [|x l IH]; intros v H; [exact H|].
  cbn [fold_left]. apply IH. by apply iterate_metadata.
Qed.

Lemma sweep_metadata (env : Env) (w : World) :
  Forall metadataIffLive (streamers (data_of (disk w))) ->
  Forall metadataIffLive
    (streamers (data_of (disk (after (checkAllStreamers env) w)))).
Proof.
  intros H.
  change (data_of (disk (after (checkAllStreamers env) w)))
    with (visible (after (checkAllStreamers env) w)).1.1.
  rewrite checkAllStreamers_visible. by apply fold_iterate_metadata.
Qed.

(** X7.  In every run of store calls and sweeps from a store without
    duplicate identifiers, no two stored records have the same identifier:
    sweeps keep the uniqueness that [addStreamer] establishes. *)
Theorem identifiers_unique_in_every_history (events : list Event) (w : World) :
  NoDup (ids (data_of (disk w))) ->
  NoDup (ids (data_of (disk (history events w)))).
Proof.
  revert w. induction events as [|e events IH]; intros w H; [exact H|].
  cbn [history fold_left]. apply IH. destruct e as [op|env]; cbn [happen].
  - cbn [disk set_disk]. by apply applyOp_ids_NoDup.
  - by rewrite sweep_ids.
Qed.

Lemma identifiers_unique_in_every_history_witness :
  NoDup (ids (data_of (disk (history
    [Command (Add 1 alice); Command (Add 2 bob); Command (Add 3 alice);
     Tick aliceUnreachable; Command (Remove "456")] freshWorld)))).
Proof. apply identifiers_unique_in_every_history. constructor. Defined.

(** X8.  The sweep calls [updateStreamerStatus] with the flag that says
    whether it has a stream, so it keeps every record carrying
    [currentStream] exactly when it is live; the bot, which changes the
    store only by [addStreamer], [removeStreamer] and sweeps, therefore
    keeps it so in every run (as does any run whose [SetLiveState] calls
    bring a stream when they say live). *)
Theorem metadata_iff_live_in_every_history (events : list Event) (w : World) :
  Forall metadataIffLive (streamers (data_of (disk w))) ->
  Forall (commandsSatisfy liveWithMetadata) events ->
  Forall metadataIffLive (streamers (data_of (disk (history events w)))).
Proof.
  revert w. induction events as [|e events IH]; intros w H He; [exact H|].
  inversion He as [|? ? Hhead Htail]; subst.
  cbn [history fold_left]. apply IH; [|assumption].
  destruct e as [op|env]; cbn [happen].
  - cbn [disk set_disk]. by apply applyOp_metadata.
  - by apply sweep_metadata.
Qed.

Lemma metadata_iff_live_in_every_history_witness :
  Forall metadataIffLive
    (streamers (data_of (disk (history
       [Command (Add 1 alice); Command (Add 2 bob);
        Tick aliceUnreachable; Tick (sweepEnv offline newYear);
        Command (Remove "123")] freshWorld)))).
Proof.
  apply metadata_iff_live_in_every_history.
  - constructor.
  - repeat constructor.
Defined.

Lemma decision_true (last : option Z) (start : option Z) :
  decision last start = true <->
  last = None \/ exists t0 t, last = Some t0 /\ start = Some t /\ t0 < t.
Proof.
  unfold decision. destruct last as [t0|]; [|split; auto].
  destruct start as [t|]; simpl.
  - rewrite Z.gtb_lt. split.
    + intros H. right. eauto.
    + intros [|(t0' & t' & [= <-] & [= <-] & H)]; [discriminate | exact H].
  - split; [discriminate|].
    intros [|(t0' & t' & _ & H & _)]; discriminate.
Qed.

(** X9.  The decision of a sweep for a watched entity (in a store without
    duplicate identifiers): it sends at most one notification for it, and
    it sends one exactly when the record read at the start of the sweep was
    not live, the lookup shows a stream, and the ledger either has no entry
    for the identifier or has one earlier than the stream's valid session
    start.  When it sends none the ledger entry is as before. *)
Theorem notification_decision (env : Env) (w : World) (a : string)
    (s : Streamer) (last : option Z) (n : nat) :
  NoDup (ids (data_of (disk w))) ->
  entityOf a w = Some (s, last, n) ->
  let w' := after (checkAllStreamers env) w in
  (notifications a w' = S n <->
   isLive s = false /\
   exists streamInfo rest,
     helix_streams env a = Ok (streamInfo :: rest) /\
     (last = None \/
      exists t0 t, last = Some t0 /\
                   Twitch.started_at streamInfo = Some t /\ t0 < t)) /\
  (notifications a w' = S n \/ notifications a w' = n) /\
  (notifications a w' = n -> ledger w' !! a = last).
Proof.
  intros Hnd He w'. subst w'.
  destruct (sweep_entity env w a _ Hnd He) as [He' _].
  unfold entityStep in He'.
  destruct (helix_streams env a) as [|t|[|i rest]] eqn:Eh;
    try (apply entityOf_parts in He' as (_ & Hl & Hc); rewrite Hc;
         split; [split; [lia | intros (_ & ? & ? & ? & _); discriminate]|];
         split; [by right | by intros _]).
  destruct (isLive s) eqn:El; cbn [negb andb] in He'.
  - apply entityOf_parts in He' as (_ & Hl & Hc). rewrite Hc.
    split; [split; [lia | intros [? _]; discriminate]|].
    split; [by right | by intros _].
  - destruct (decision last (Twitch.started_at i)) eqn:Ed;
      apply entityOf_parts in He' as (_ & Hl & Hc); rewrite Hc.
    + apply decision_true in Ed.
      split; [split; [intros _; split; [reflexivity|]; eauto | reflexivity]|].
      split; [by left | lia].
    + split; [split; [lia|]|split; [by right | by intros _]].
      intros (_ & i' & rest' & [= <- <-] & Hd).
      apply decision_true in Hd. congruence.
Qed.

Lemma notification_decision_witness :
  notifications "123"
    (after (checkAllStreamers (sweepEnv (liveSince newYear) (newYear + 60000)))
       aliceWatched) = 1%nat.
Proof.
  refine (proj2 (proj1 (notification_decision
            (sweepEnv (liveSince newYear) (newYear + 60000))
            aliceWatched "123" aliceRecord None 0 _ _)) _).
  - vm_compute. apply NoDup_singleton.
  - vm_compute. reflexivity.
  - split; [reflexivity|]. exists (streamSince newYear), []. split; auto.
Defined.

(** X10.  A watched entity that is stored as live is never announced by a
    sweep, whatever the lookup shows: a session that ends and a new one
    that starts between two sweeps, seen live both times, is not announced
    and leaves the ledger entry as it was, while the stored stream is
    replaced by the new one. *)
Theorem live_entity_not_announced (env : Env) (w : World) (a : string)
    (s : Streamer) (last : option Z) (n : nat)
    (streamInfo : Twitch.Stream) (rest : list Twitch.Stream) :
  NoDup (ids (data_of (disk w))) ->
  entityOf a w = Some (s, last, n) ->
  isLive s = true ->
  helix_streams env a = Ok (streamInfo :: rest) ->
  entityOf a (after (checkAllStreamers env) w) =
    Some (setStatus true (Some streamInfo) s, last, n) /\
  (startedAt <$> currentStream (setStatus true (Some streamInfo) s)) =
    Some (Twitch.started_at streamInfo).
Proof.
  intros Hnd He Hl Hh.
  destruct (sweep_entity env w a _ Hnd He) as [He' _].
  rewrite Hh in He'. cbn [entityStep] in He'. rewrite Hl in He'.
  split; [exact He' | reflexivity].
Qed.

Lemma live_entity_not_announced_witness :
  notifications "123"
    (sweeps [sweepEnv (liveSince newYear) (newYear + 60000);
             sweepEnv (liveSince (newYear + 7200000)) (newYear + 7260000)]
       aliceWatched) = 1%nat.
Proof.
  pose (w1 := sweeps [sweepEnv (liveSince newYear) (newYear + 60000)]
                aliceWatched).
  refine (proj2 (proj2 (entityOf_parts "123" _ _ _ _
    (proj1 (live_entity_not_announced
       (sweepEnv (liveSince (newYear + 7200000)) (newYear + 7260000))
       w1 "123" (setStatus true (Some (streamSince newYear)) aliceRecord)
       (Some (newYear + 60000)) 1
       (streamSince (newYear + 7200000)) [] _ _ _ _))))).
  - vm_compute. apply NoDup_singleton.
  - vm_compute. reflexivity.
  - reflexivity.
  - reflexivity.
Defined.

(** X11.  What a sweep stores for a watched entity whose lookup answered
    (in a store without duplicate identifiers): the live flag says whether
    the answer held a stream, [currentStream] holds the fields of the first
    stream of the answer or is absent, and the fields written by [/tuadd]
    are as before. *)
Theorem sweep_refreshes_state (env : Env) (w : World) (a : string)
    (s : Streamer) (last : option Z) (n : nat) (data : list Twitch.Stream) :
  NoDup (ids (data_of (disk w))) ->
  entityOf a w = Some (s, last, n) ->
  helix_streams env a = Ok data ->
  exists s',
    stored a (data_of (disk (after (checkAllStreamers env) w))) = Some s' /\
    identity s' = identity s /\
    isLive s' = bool_decide (data ≠ []) /\
    currentStream s' =
      match data with
      | [] => None
      | streamInfo :: _ =>
          Some {| title := Twitch.title streamInfo;
                  gameName := Twitch.game_name streamInfo;
                  thumbnailUrl := Twitch.thumbnail_url streamInfo;
                  viewerCount := Twitch.viewer_count streamInfo;
                  startedAt := Twitch.started_at streamInfo |}
      end.
Proof.
  intros Hnd He Hh.
  destruct (sweep_entity env w a _ Hnd He) as [He' _].
  rewrite Hh in He'. destruct data as [|i rest]; cbn [entityStep] in He'.
  - apply entityOf_parts in He' as (Hs & _). eexists. split; [exact Hs|].
    by repeat split.
  - destruct (negb (isLive s) && decision last (Twitch.started_at i));
      apply entityOf_parts in He' as (Hs & _); eexists;
      (split; [exact Hs|]); by repeat split.
Qed.

Lemma sweep_refreshes_state_witness :
  exists s',
    stored "123" (data_of (disk (after (checkAllStreamers
                                          (sweepEnv offline newYear))
                                   aliceWatched))) = Some s' /\
    identity s' = identity aliceRecord /\
    isLive s' = bool_decide (@nil Twitch.Stream ≠ []) /\
    currentStream s' = None.
Proof.
  refine (sweep_refreshes_state (sweepEnv offline newYear) aliceWatched "123"
            aliceRecord None 0 [] _ _ _).
  - vm_compute. apply NoDup_singleton.
  - vm_compute. reflexivity.
  - reflexivity.
Defined.

(** X12.  When the stream of the answer has no [viewer_count], building the
    embed throws in every guild: the iteration that decides to notify
    delivers no message at all, and still counts the notification and
    enters the clock reading in the ledger. *)
Theorem uncounted_stream_is_lost (env : Env) (s : Streamer) (w : World)
    (streamInfo : Twitch.Stream) (rest : list Twitch.Stream) :
  helix_streams env (id s) = Ok (streamInfo :: rest) ->
  Twitch.viewer_count streamInfo = None ->
  isLive s = false ->
  decision (ledger w !! id s) (Twitch.started_at streamInfo) = true ->
  outbox (after (checkStreamer env s) w) = outbox w /\
  notifications (id s) (after (checkStreamer env s) w) =
    S (notifications (id s) w) /\
  ledger (after (checkStreamer env s) w) !! id s = Some (clock env (id s)).
Proof.
  intros Hh Hv Hl Hd. unfold ledger in Hd.
  destruct (checkStreamer_effect env s w) as (w1 & E & Hvis & _).
  unfold after. rewrite E. cbn [snd]. unfold notifications, ledger.
  replace (outbox w1) with (visible w1).2 by reflexivity.
  replace (dispatched w1) with (visible w1).1.2 by reflexivity.
  replace (data_of (disk w1)) with (visible w1).1.1 by reflexivity.
  rewrite Hvis. unfold visible, iterate, notifies, seen.
  rewrite Hh. cbn [failed]. rewrite Hl, Hd.
  cbn [negb andb fst snd lastNotified].
  rewrite flat_map_delivered_uncounted by assumption.
  rewrite app_nil_r, count_snoc, String.eqb_refl, lookup_insert_eq.
  by repeat split.
Qed.

Lemma uncounted_stream_is_lost_witness :
  outbox (after (checkStreamer uncountedEnv aliceRecord) aliceWatched) = [] /\
  notifications "123" (after (checkStreamer uncountedEnv aliceRecord) aliceWatched)
    = 1%nat /\
  ledger (after (checkStreamer uncountedEnv aliceRecord) aliceWatched) !! "123"
    = Some (newYear + 60000).
Proof.
  apply (uncounted_stream_is_lost uncountedEnv aliceRecord aliceWatched
           streamUncounted []); reflexivity.
Defined.

(** * Properties of the Twitch module *)

Module TwitchApiFacts.

Import TwitchApi.

(** [getAccessToken], case by case. *)
Lemma getAccessToken_eq (net : Internet) (c : Client) :
  getAccessToken net c =
  if cacheValid net c then
    (Returned (accessToken c),
     {| accessToken := accessToken c; tokenExpiry := tokenExpiry c;
        clockReads := S (clockReads c); requests := requests c |})
  else
    let reads :=
      if truthyString (accessToken c) && truthyNumber (tokenExpiry c)
      then S (clockReads c) else clockReads c in
    match token_answer net (length (requests c)) with
    | TokenNoAnswer =>
        (Threw Rejected,
         {| accessToken := accessToken c; tokenExpiry := tokenExpiry c;
            clockReads := reads; requests := requests c ++ [PostToken] |})
    | TokenNotOk statusText =>
        (Threw (TokenStatus statusText),
         {| accessToken := accessToken c; tokenExpiry := tokenExpiry c;
            clockReads := reads; requests := requests c ++ [PostToken] |})
    | TokenOk token seconds =>
        (Returned token,
         {| accessToken := token;
            tokenExpiry :=
              (fun s => Date_now net reads + (s - 60) * 1000) <$> seconds;
            clockReads := S reads; requests := requests c ++ [PostToken] |})
    end.
Proof.
  unfold cacheValid, getAccessToken.
  destruct (truthyString (accessToken c) && truthyNumber (tokenExpiry c))
    eqn:Et.
  - destruct (tokenExpiry c) as [expiry|] eqn:Ee;
      [|by rewrite andb_false_r in Et].
    rewrite andb_true_l.
    unfold bind at 1. unfold bind at 1. unfold dateNow at 1. unfold ret at 1.
    destruct (Date_now net (clockReads c) <? expiry) eqn:Enow.
    + unfold ret. by rewrite Ee.
    + unfold bind, fetch, setToken, setExpiry, dateNow, throw, ret. cbn.
      destruct (token_answer net (length (requests c))) as [|t|token seconds];
        cbn; rewrite ?Ee; try reflexivity; by destruct seconds.
  - rewrite andb_false_l.
    unfold bind, fetch, setToken, setExpiry, dateNow, throw, ret. cbn.
    destruct (token_answer net (length (requests c))) as [|t|token seconds];
      cbn; try reflexivity; by destruct seconds.
Qed.

(** X13.  [getAccessToken] with a usable cache (a non-empty token, an
    expiry that is a non-zero number, and a clock reading before it)
    returns the cached token without any request and keeps the cache.
    Otherwise it makes exactly one request for a token: when the answer is
    ok it returns the token of the answer and caches it with an expiry of
    the clock reading taken after the answer plus the announced life time
    less sixty seconds; when the request fails it throws and the cache is
    as before. *)
Theorem getAccessToken_spec (net : Internet) (c : Client) :
  let r := getAccessToken net c in
  (cacheValid net c = true ->
     fst r = Returned (accessToken c) /\
     requests (snd r) = requests c /\
     accessToken (snd r) = accessToken c /\
     tokenExpiry (snd r) = tokenExpiry c) /\
  (cacheValid net c = false ->
     requests (snd r) = requests c ++ [PostToken] /\
     match token_answer net (length (requests c)) with
     | TokenOk token seconds =>
         fst r = Returned token /\
         accessToken (snd r) = token /\
         tokenExpiry (snd r) =
           (fun s => Date_now net (pred (clockReads (snd r))) + (s - 60) * 1000)
             <$> seconds
     | TokenNotOk statusText =>
         fst r = Threw (TokenStatus statusText) /\
         accessToken (snd r) = accessToken c /\
         tokenExpiry (snd r) = tokenExpiry c
     | TokenNoAnswer =>
         fst r = Threw Rejected /\
         accessToken (snd r) = accessToken c /\
         tokenExpiry (snd r) = tokenExpiry c
     end).
Proof.
  cbn zeta. rewrite getAccessToken_eq.
  destruct (cacheValid net c); (split; [|intros; try discriminate]);
    try (intros; discriminate).
  - by repeat split.
  - destruct (token_answer net (length (requests c))) as [|t|token seconds];
      cbn; by repeat split.
Qed.

Lemma getAccessToken_spec_witness :
  fst (getAccessToken theInternet freshClient) = Returned (Some "token") /\
  accessToken (snd (getAccessToken theInternet freshClient)) = Some "token" /\
  tokenExpiry (snd (getAccessToken theInternet freshClient)) =
    (fun s => Date_now theInternet
                (pred (clockReads (snd (getAccessToken theInternet freshClient))))
              + (s - 60) * 1000) <$> Some 3600.
Proof.
  apply (proj2 (proj2 (getAccessToken_spec theInternet freshClient) eq_refl)).
Defined.

(** X14.  After a refresh that brought a non-empty token with a life time
    of [seconds], the next call reuses that token without a request if
    the clock then reads less than the reading taken at the refresh plus
    [seconds - 60] seconds (and that sum is not zero), and asks for a new
    token otherwise.  So a token announced to live sixty seconds or less
    is never reused by a clock that does not go back. *)
Theorem token_reuse (net : Internet) (c : Client) (c1 : Client)
    (token : string) (seconds : Z) :
  cacheValid net c = false ->
  token_answer net (length (requests c)) = TokenOk (Some token) (Some seconds) ->
  token ≠ "" ->
  c1 = snd (getAccessToken net c) ->
  let refreshed := Date_now net (pred (clockReads c1)) in
  let expiry := refreshed + (seconds - 60) * 1000 in
  ((Date_now net (clockReads c1) < expiry) -> (expiry ≠ 0) ->
     fst (getAccessToken net c1) = Returned (Some token) /\
     requests (snd (getAccessToken net c1)) = requests c1) /\
  ((expiry <= Date_now net (clockReads c1)) ->
     requests (snd (getAccessToken net c1)) = requests c1 ++ [PostToken]) /\
  ((seconds <= 60) -> (refreshed <= Date_now net (clockReads c1)) ->
     requests (snd (getAccessToken net c1)) = requests c1 ++ [PostToken]).
Proof.
  intros Hc Ha Htok Hc1. cbn zeta.
  rewrite getAccessToken_eq, Hc, Ha in Hc1. cbn zeta in Hc1.
  assert (accessToken c1 = Some token) as Et by (by subst c1).
  assert (tokenExpiry c1 =
          Some (Date_now net (pred (clockReads c1)) + (seconds - 60) * 1000))
    as Ee by (by subst c1).
  set (expiry := Date_now net (pred (clockReads c1)) + (seconds - 60) * 1000)
    in *.
  assert (expiry <= Date_now net (clockReads c1) -> cacheValid net c1 = false)
    as Hexpired.
  { intros H. unfold cacheValid. rewrite Ee.
    assert ((Date_now net (clockReads c1) <? expiry) = false) as ->
      by (by apply Z.ltb_ge).
    apply andb_false_r. }
  assert (forall r, cacheValid net r = false ->
            requests (snd (getAccessToken net r)) = requests r ++ [PostToken])
    as Hasks.
  { intros r Hr. rewrite getAccessToken_eq, Hr. cbn zeta.
    by destruct (token_answer net (length (requests r))). }
  split; [|split].
  - intros Hnow Hnz.
    assert (cacheValid net c1 = true) as Hv.
    { unfold cacheValid. rewrite Et, Ee.
      destruct token as [|ch rest]; [contradiction|]. cbn.
      assert ((expiry =? 0) = false) as -> by (by apply Z.eqb_neq).
      by apply Z.ltb_lt. }
    rewrite getAccessToken_eq, Hv. cbn [fst snd requests]. by rewrite Et.
  - intros H. apply Hasks, Hexpired, H.
  - intros Hs Hmono. apply Hasks, Hexpired. unfold expiry. lia.
Qed.

Lemma token_reuse_witness :
  fst (getAccessToken theInternet (snd (getAccessToken theInternet freshClient)))
    = Returned (Some "token") /\
  requests (snd (getAccessToken theInternet
                   (snd (getAccessToken theInternet freshClient))))
    = requests (snd (getAccessToken theInternet freshClient)).
Proof.
  refine (proj1 (token_reuse theInternet freshClient _ "token" 3600
                   eq_refl eq_refl _ eq_refl) _ _).
  - discriminate.
  - reflexivity.
  - discriminate.
Defined.

(** The parts of a string between separators: the first one has no
    separator in it and the string begins with it, followed by nothing or
    by a separator. *)
Lemma split_head (sep : Ascii.ascii) (s : string) :
  exists part parts,
    split sep s = part :: parts /\
    (forall c, In c (String.list_ascii_of_string part) -> c ≠ sep) /\
    (s = part /\ parts = [] \/
     exists rest, s = (part ++ String sep rest)%string /\
                  parts = split sep rest).
Proof.
  induction s as [|c s IH]; cbn [split].
  - exists EmptyString, []. split; [reflexivity|]. split; [intros c []|].
    by left.
  - destruct (Ascii.eqb c sep) eqn:Ec.
    + apply Ascii.eqb_eq in Ec. subst c.
      exists EmptyString, (split sep s). split; [reflexivity|].
      split; [intros c []|]. right. by exists s.
    + apply Ascii.eqb_neq in Ec.
      destruct IH as (part & parts & -> & Hno & Hshape).
      exists (String c part), parts. split; [reflexivity|]. split.
      * intros c' [<-|Hin]; [exact Ec | by apply Hno].
      * destruct Hshape as [[-> ->]|(rest & -> & ->)]; [by left|].
        right. by exists rest.
Qed.

Lemma lowerAscii_twice (c : Ascii.ascii) :
  lowerAscii (lowerAscii c) = lowerAscii c.
Proof. destruct c as [[] [] [] [] [] [] [] []]; reflexivity. Qed.

Lemma lowerAscii_slash (c : Ascii.ascii) : lowerAscii c = slash -> c = slash.
Proof. destruct c as [[] [] [] [] [] [] [] []]; cbv; congruence. Qed.

Lemma toLowerCase_twice (s : string) : toLowerCase (toLowerCase s) = toLowerCase s.
Proof.
  induction s as [|c s IH]; cbn [toLowerCase]; [reflexivity|].
  by rewrite lowerAscii_twice, IH.
Qed.

Lemma toLowerCase_no_slash (s : string) :
  (forall c, In c (String.list_ascii_of_string s) -> c ≠ slash) ->
  forall c, In c (String.list_ascii_of_string (toLowerCase s)) -> c ≠ slash.
Proof.
  induction s as [|x s IH]; cbn [toLowerCase String.list_ascii_of_string];
    intros H c; [intros []|].
  intros [<-|Hin].
  - intros E. apply lowerAscii_slash in E. apply (H x); [by left | exact E].
  - apply IH; [|exact Hin]. intros c' Hc'. apply H. by right.
Qed.

Lemma append_empty (s : string) : (s ++ EmptyString)%string = s.
Proof.
  induction s as [|c s IH]; [reflexivity|].
  change (String c (s ++ EmptyString)%string = String c s). by rewrite IH.
Qed.

(** The first non-empty part of a path: the path is some slashes, then
    that part, then nothing or a slash and the rest. *)
Lemma first_part (s : string) :
  match List.filter nonEmpty (split slash s) with
  | [] => exists k, s = String.string_of_list_ascii (repeat slash k)
  | part :: _ =>
      part ≠ EmptyString /\
      (forall c, In c (String.list_ascii_of_string part) -> c ≠ slash) /\
      exists k rest,
        s = (String.string_of_list_ascii (repeat slash k) ++ part ++ rest)%string /\
        (rest = EmptyString \/ exists rest', rest = String slash rest')
  end.
Proof.
  induction s as [|c s IH].
  - cbn. by exists 0%nat.
  - cbn [split]. destruct (Ascii.eqb c slash) eqn:Ec.
    + apply Ascii.eqb_eq in Ec. subst c. cbn [List.filter nonEmpty].
      destruct (List.filter nonEmpty (split slash s)) as [|p ps].
      * destruct IH as [k ->]. by exists (S k).
      * destruct IH as (Hne & Hp & k & rest & -> & Hrest).
        split; [exact Hne|]. split; [exact Hp|]. by exists (S k), rest.
    + apply Ascii.eqb_neq in Ec. clear IH.
      destruct (split_head slash s) as (part & parts & -> & Hno & Hshape).
      cbn [List.filter nonEmpty]. split; [discriminate|]. split.
      { intros c' [<-|Hin]; [exact Ec | by apply Hno]. }
      exists 0%nat. cbn [repeat String.string_of_list_ascii String.append].
      destruct Hshape as [[-> _]|(rest & -> & _)].
      * exists EmptyString. split; [by rewrite append_empty | by left].
      * exists (String slash rest). split; [reflexivity|]. right. eauto.
Qed.

(** X15.  [extractUsernameFromUrl] answers only for a link that [URL]
    accepts and whose host is [twitch.tv] or [www.twitch.tv]; its answer is
    the first non-empty part of the path (after any number of leading
    slashes, up to the next slash) in lower case: it is never empty, has no
    slash in it, and lower-casing it again changes nothing.  For such a
    host it answers [null] only when the path is nothing but slashes. *)
Theorem extractUsernameFromUrl_spec (newURL : string -> option URL)
    (url : string) :
  (forall username,
     extractUsernameFromUrl newURL url = Some username ->
     username ≠ EmptyString /\
     (forall c, In c (String.list_ascii_of_string username) -> c ≠ slash) /\
     toLowerCase username = username /\
     exists twitchUrl part k rest,
       newURL url = Some twitchUrl /\
       (hostname twitchUrl = "twitch.tv" \/
        hostname twitchUrl = "www.twitch.tv") /\
       pathname twitchUrl =
         (String.string_of_list_ascii (repeat slash k) ++ part ++ rest)%string /\
       (forall c, In c (String.list_ascii_of_string part) -> c ≠ slash) /\
       (rest = EmptyString \/ exists rest', rest = String slash rest') /\
       username = toLowerCase part) /\
  (extractUsernameFromUrl newURL url = None ->
   newURL url = None \/
   exists twitchUrl,
     newURL url = Some twitchUrl /\
     ((hostname twitchUrl ≠ "twitch.tv" /\
       hostname twitchUrl ≠ "www.twitch.tv") \/
      exists k, pathname twitchUrl = String.string_of_list_ascii (repeat slash k))).
Proof.
  unfold extractUsernameFromUrl.
  destruct (newURL url) as [tw|]; [|split; [discriminate | auto]].
  destruct (String.eqb (hostname tw) "twitch.tv") eqn:E1;
    [|destruct (String.eqb (hostname tw) "www.twitch.tv") eqn:E2].
  3: { apply String.eqb_neq in E1, E2. cbn [orb].
       split; [discriminate|]. intros _. right. exists tw. auto. }
  all: cbn [orb];
    assert (hostname tw = "twitch.tv" \/ hostname tw = "www.twitch.tv") as Hhost
      by (first [apply String.eqb_eq in E1; by left
                | apply String.eqb_eq in E2; by right]);
    pose proof (first_part (pathname tw)) as Hp;
    destruct (List.filter nonEmpty (split slash (pathname tw))) as [|part ps];
    (split; [intros username Hu | intros Hn]); try discriminate.
  all: try (right; exists tw; split; [reflexivity|]; right; exact Hp).
  all: injection Hu as <-;
    destruct Hp as (Hne & Hno & k & rest & Epath & Hrest);
    (split; [by destruct part|]);
    (split; [by apply toLowerCase_no_slash|]);
    (split; [apply toLowerCase_twice|]);
    exists tw, part, k, rest; by repeat split.
Qed.

Lemma extractUsernameFromUrl_spec_witness :
  extractUsernameFromUrl twitchPath "//Alice/videos" = Some "alice" /\
  "alice" ≠ EmptyString.
Proof.
  split; [reflexivity|].
  apply (proj1 (extractUsernameFromUrl_spec twitchPath "//Alice/videos")
           "alice" eq_refl).
Defined.

Lemma getAccessToken_log (net : Internet) (c : Client) :
  exists new,
    requests (snd (getAccessToken net c)) = requests c ++ new /\
    noStreamsRequest new.
Proof.
  rewrite getAccessToken_eq.
  destruct (cacheValid net c).
  - exists []. split; [by rewrite app_nil_r|]. intros u b H. inversion H.
  - exists [PostToken]. cbn zeta. split.
    + by destruct (token_answer net (length (requests c))).
    + intros u b H. apply list_elem_of_singleton in H. discriminate.
Qed.

Lemma getUserByUsername_eq (username : string) (net : Internet) (c : Client) :
  getUserByUsername username net c =
  match getAccessToken net c with
  | (Threw e, c1) => (Threw e, c1)
  | (Returned token, c1) =>
      match users_answer net (length (requests c1)) username with
      | UsersNoAnswer => (Threw Rejected, asked (GetUsers username token) c1)
      | UsersNotOk t => (Threw (UserStatus t), asked (GetUsers username token) c1)
      | UsersOk [] => (Returned None, asked (GetUsers username token) c1)
      | UsersOk (u :: _) => (Returned (Some u), asked (GetUsers username token) c1)
      end
  end.
Proof.
  unfold getUserByUsername, bind, fetch, ret, throw, asked.
  destruct (getAccessToken net c) as [[token|e] c1]; [|reflexivity].
  by destruct (users_answer net (length (requests c1)) username) as [|t|[|u l]].
Qed.

Lemma checkIfLive_request (userId : string) (net : Internet) (c : Client) :
  checkIfLive userId net c =
  match getAccessToken net c with
  | (Threw e, c1) => (Threw e, c1)
  | (Returned token, c1) =>
      match streams_answer net (length (requests c1)) userId with
      | NoResponse => (Threw Rejected, asked (GetStreams userId token) c1)
      | NotOk t => (Threw (StreamStatus t), asked (GetStreams userId token) c1)
      | Ok [] => (Returned None, asked (GetStreams userId token) c1)
      | Ok (i :: _) => (Returned (Some i), asked (GetStreams userId token) c1)
      end
  end.
Proof.
  unfold checkIfLive, bind, fetch, ret, throw, asked.
  destruct (getAccessToken net c) as [[token|e] c1]; [|reflexivity].
  by destruct (streams_answer net (length (requests c1)) userId) as [|t|[|i l]].
Qed.

Lemma getUserByUsername_log (username : string) (net : Internet) (c : Client) :
  exists new,
    requests (snd (getUserByUsername username net c)) = requests c ++ new /\
    noStreamsRequest new /\
    (forall r, fst (getUserByUsername username net c) = Returned r ->
       exists bearer, GetUsers username bearer ∈ new).
Proof.
  rewrite getUserByUsername_eq.
  destruct (getAccessToken_log net c) as (new & Hreq & Hno).
  destruct (getAccessToken net c) as [[token|e] c1]; cbn [snd] in Hreq.
  - exists (new ++ [GetUsers username token]).
    assert (noStreamsRequest (new ++ [GetUsers username token])) as Hno'.
    { intros u b H. apply elem_of_app in H as [H|H]; [by apply (Hno u b)|].
      apply list_elem_of_singleton in H. discriminate. }
    assert (GetUsers username token ∈ new ++ [GetUsers username token]) as Hin.
    { apply elem_of_app. right. by apply list_elem_of_singleton. }
    destruct (users_answer net (length (requests c1)) username)
      as [|t|[|u rest]]; cbn; rewrite Hreq, <- app_assoc;
      (split; [reflexivity|]); (split; [exact Hno'|]); eauto.
  - exists new. cbn. split; [exact Hreq|]. split; [exact Hno|].
    intros r H. discriminate H.
Qed.

Lemma getStreamerInfo_eq (newURL : string -> option URL) (url : string)
    (net : Internet) (c : Client) :
  getStreamerInfo newURL url net c =
  match extractUsernameFromUrl newURL url with
  | None => (Returned None, c)
  | Some username =>
      if nonEmpty username then
        match getUserByUsername username net c with
        | (Threw e, c1) => (Threw e, c1)
        | (Returned None, c1) => (Returned None, c1)
        | (Returned (Some u), c1) =>
            match checkIfLive (Twitch.id u) net c1 with
            | (Threw e, c2) => (Threw e, c2)
            | (Returned i, c2) =>
                (Returned (Some {| user := u; stream := i;
                                   isLive := bool_decide (is_Some i) |}), c2)
            end
        end
      else (Returned None, c)
  end.
Proof.
  unfold getStreamerInfo.
  destruct (extractUsernameFromUrl newURL url) as [username|]; [|reflexivity].
  destruct (nonEmpty username); [|reflexivity].
  unfold bind at 1.
  by destruct (getUserByUsername username net c) as [[[u|]|e] c1].
Qed.

(** X16.  [getStreamerInfo] returns [null] at once, without reading the
    clock or asking anything, for a link from which no user name is
    extracted.  When it returns [null] it has not asked for streams (the
    user was not found).  When it returns a record, that record says live
    exactly when it holds a stream, the users were asked for the extracted
    name, and the last request made was for the streams of the user it
    holds. *)
Theorem getStreamerInfo_spec (newURL : string -> option URL) (url : string)
    (net : Internet) (c : Client) :
  (extractUsernameFromUrl newURL url = None ->
     getStreamerInfo newURL url net c = (Returned None, c)) /\
  (forall c',
     getStreamerInfo newURL url net c = (Returned None, c') ->
     exists new, requests c' = requests c ++ new /\ noStreamsRequest new) /\
  (forall info c',
     getStreamerInfo newURL url net c = (Returned (Some info), c') ->
     isLive info = bool_decide (is_Some (stream info)) /\
     exists username new bearer bearer',
       extractUsernameFromUrl newURL url = Some username /\
       requests c' =
         requests c ++ new ++ [GetStreams (Twitch.id (user info)) bearer] /\
       GetUsers username bearer' ∈ new).
Proof.
  assert (forall c', (@Returned (option StreamerInfo) None, c) = (Returned None, c') ->
            exists new, requests c' = requests c ++ new /\ noStreamsRequest new)
    as Hnull.
  { intros c' [= <-]. exists []. split; [by rewrite app_nil_r|].
    intros u b H. inversion H. }
  rewrite getStreamerInfo_eq.
  destruct (extractUsernameFromUrl newURL url) as [username|].
  2: { split; [reflexivity|]. split; [exact Hnull|]. intros; discriminate. }
  split; [discriminate|].
  destruct (nonEmpty username).
  2: { split; [exact Hnull|]. intros; discriminate. }
  clear Hnull.
  destruct (getUserByUsername_log username net c) as (new & Hreq & Hno & Hasked).
  destruct (getUserByUsername username net c) as [[[u|]|e] c1];
    cbn [fst snd] in Hreq, Hasked.
  - destruct (Hasked _ eq_refl) as [bearer' Hin].
    rewrite checkIfLive_request.
    destruct (getAccessToken_log net c1) as (new1 & Hreq1 & Hno1).
    destruct (getAccessToken net c1) as [[token|e] c2]; cbn [snd] in Hreq1.
    + destruct (streams_answer net (length (requests c2)) (Twitch.id u))
        as [|t|[|i rest]]; (split; [intros c' H; discriminate H|]);
        intros info c' H; try discriminate H;
        injection H as <- <-;
        cbn [isLive stream user asked requests]; (split; [reflexivity|]);
        exists username, (new ++ new1), token, bearer';
        (split; [reflexivity|]); rewrite Hreq1, Hreq, <- !app_assoc;
        (split; [reflexivity|]); apply elem_of_app; by left.
    + split; [intros c' H | intros info c' H]; discriminate H.
  - split; [|intros info c' H; discriminate H].
    intros c' [= <-]. eauto.
  - split; [intros c' H | intros info c' H]; discriminate H.
Qed.

Lemma getStreamerInfo_spec_witness :
  getStreamerInfo twitchPath "" theInternet freshClient
  = (Returned None, freshClient).
Proof.
  apply (proj1 (getStreamerInfo_spec twitchPath "" theInternet freshClient)).
  reflexivity.
Defined.

(** With that internet, the link of alice gives her record, live, after a
    token request, the user request and the stream request with the
    cached token. *)
Example getStreamerInfo_alice :
  let r := getStreamerInfo twitchPath "/Alice" theInternet freshClient in
  (isLive <$> (match fst r with Returned i => i | Threw _ => None end))
    = Some true /\
  requests (snd r) =
    [PostToken; GetUsers "alice" (Some "token");
     GetStreams "123" (Some "token")].
Proof. vm_compute. split; reflexivity. Qed.

End TwitchApiFacts.


(** * Properties of the command handlers *)

Lemma answer_shown (interaction : Interaction) (failure reply : Reply) :
  answer interaction failure reply =
    if shown interaction reply then Some reply
    else if shown interaction failure then Some failure else None.
Proof.
  unfold answer, shown.
  by destruct (editReply interaction reply), (editReply interaction failure).
Qed.

(** X17.  [/tuadd] by what the lookup gave and by what Discord does with
    the answers.  When [deferReply] rejects nothing is done.  Otherwise: if
    the lookup threw, the file is untouched and the answer is the error
    message; if it found no streamer, the file is untouched and the answer
    says so; if the streamer is already watched, the content of the file is
    as before and the answer says so; otherwise the file gains one record
    for the streamer, which is stored as not live and without stream even
    when the lookup found a stream, and the answer names the streamer and
    says whether the lookup found a stream.  In each case, when the answer
    cannot be built or sent the error message is shown in its place, or
    nothing when that is rejected too; the record that was added stays in
    the file. *)
Theorem handleAddCommand_spec (newURL : string -> option TwitchApi.URL)
    (interaction : Interaction)
    (net : TwitchApi.Internet) (now : Z) (streamLink : string)
    (client : TwitchApi.Client) (file : File) :
  let result :=
    handleAddCommand newURL interaction net now streamLink client file in
  let failure :=
    if shown interaction ReplyAddFailed then Some ReplyAddFailed else None in
  (deferReply_resolves interaction = false -> result = (None, client, file)) /\
  (deferReply_resolves interaction = true ->
   match TwitchApi.getStreamerInfo newURL streamLink net client with
   | (TwitchApi.Threw _, client') => result = (failure, client', file)
   | (TwitchApi.Returned None, client') =>
       result =
         (if shown interaction ReplyNoSuchLink then Some ReplyNoSuchLink
          else failure, client', file)
   | (TwitchApi.Returned (Some info), client') =>
       let u := TwitchApi.user info in
       (Twitch.id u ∈ ids (data_of file) ->
          let reply := ReplyAlreadyMonitored (Twitch.display_name u) in
          exists file',
            result =
              (if shown interaction reply then Some reply else failure,
               client', file') /\
            data_of file' = data_of file) /\
       (Twitch.id u ∉ ids (data_of file) ->
          let reply :=
            ReplyAdded (Twitch.display_name u) (Twitch.login u)
              (TwitchApi.isLive info) in
          exists file' s,
            result =
              (if shown interaction reply then Some reply else failure,
               client', file') /\
            streamers (data_of file') = streamers (data_of file) ++ [s] /\
            lastNotified (data_of file') = lastNotified (data_of file) /\
            id s = Twitch.id u /\ Storage.username s = Twitch.login u /\
            isLive s = false /\ currentStream s = None)
   end).
Proof.
  cbn zeta. unfold handleAddCommand. split; intros ->; [reflexivity|].
  destruct (TwitchApi.getStreamerInfo newURL streamLink net client)
    as [[[info|]|e] client'].
  - rewrite addStreamer_eq. unfold ids. split; intros H.
    + assert (existsb (hasId (Twitch.id (TwitchApi.user info)))
                (streamers (data_of file)) = true) as ->
        by (by apply existsb_hasId).
      eexists. rewrite answer_shown. split; reflexivity.
    + assert (existsb (hasId (Twitch.id (TwitchApi.user info)))
                (streamers (data_of file)) = false) as ->
        by (by apply existsb_hasId_false).
      eexists. eexists. rewrite answer_shown. split; [reflexivity|].
      by repeat split.
  - by rewrite answer_shown.
  - unfold shown. by destruct (editReply interaction ReplyAddFailed).
Qed.

(** The profile image of the streamer is not a URL that the builder takes:
    the answer is the error message, and alice is watched all the same. *)
Lemma handleAddCommand_spec_witness :
  exists file' s,
    handleAddCommand twitchPath noEmbeds theInternet 1 "/Alice" freshClient None
      = (Some ReplyAddFailed,
         snd (TwitchApi.getStreamerInfo twitchPath "/Alice" theInternet
                freshClient),
         file') /\
    streamers (data_of file') = streamers (data_of None) ++ [s] /\
    lastNotified (data_of file') = lastNotified (data_of None) /\
    id s = "123" /\ Storage.username s = "alice" /\
    isLive s = false /\ currentStream s = None.
Proof.
  refine (proj2 (proj2 (handleAddCommand_spec twitchPath noEmbeds theInternet 1
                          "/Alice" freshClient None) eq_refl) _).
  vm_compute. intros H. inversion H.
Defined.

Lemma find_hasId_snoc (a : string) (l : list Streamer) (s : Streamer) :
  List.find (hasId a) l = None -> id s = a ->
  List.find (hasId a) (l ++ [s]) = Some s.
Proof.
  intros Hl Hs. induction l as [|x l IH]; cbn [app List.find] in *.
  - assert (hasId a s = true) as -> by (by apply hasId_true). reflexivity.
  - destruct (hasId a x); [discriminate | by apply IH].
Qed.

(** X18.  A streamer who is live when added is announced by the next
    sweep: after [/tuadd] answered that the streamer was added, on a store
    without duplicate identifiers whose ledger entries all belong to
    watched identifiers, a sweep whose lookup for the new identifier shows
    a stream sends exactly one notification for it, enters the clock
    reading in the ledger and stores the streamer as live. *)
Theorem added_live_then_announced (newURL : string -> option TwitchApi.URL)
    (interaction : Interaction)
    (net : TwitchApi.Internet) (now : Z) (streamLink : string)
    (client client' : TwitchApi.Client) (w : World) (file' : File)
    (display_name login : string) (live : bool)
    (info : TwitchApi.StreamerInfo) (env : Env)
    (streamInfo : Twitch.Stream) (rest : list Twitch.Stream) :
  NoDup (ids (data_of (disk w))) ->
  TwitchApi.getStreamerInfo newURL streamLink net client
    = (TwitchApi.Returned (Some info), client') ->
  handleAddCommand newURL interaction net now streamLink client (disk w)
    = (Some (ReplyAdded display_name login live), client', file') ->
  ledgerWatched (data_of (disk w)) ->
  helix_streams env (Twitch.id (TwitchApi.user info))
    = Ok (streamInfo :: rest) ->
  let a := Twitch.id (TwitchApi.user info) in
  let w' := after (checkAllStreamers env) (set_disk file' w) in
  notifications a w' = S (notifications a w) /\
  ledger w' !! a = Some (clock env a) /\
  (isLive <$> stored a (data_of (disk w'))) = Some true.
Proof.
  intros Hnd Hinfo Hadd Hwatched Hh a w'. subst a w'.
  unfold handleAddCommand in Hadd.
  destruct (deferReply_resolves interaction); [|discriminate].
  rewrite Hinfo in Hadd. rewrite addStreamer_eq, answer_shown in Hadd.
  destruct (existsb (hasId (Twitch.id (TwitchApi.user info)))
              (streamers (data_of (disk w)))) eqn:Eex.
  { rewrite answer_shown in Hadd.
    destruct (shown interaction (ReplyAlreadyMonitored _)),
      (shown interaction ReplyAddFailed); discriminate. }
  apply (f_equal snd) in Hadd. cbn [snd] in Hadd. subst file'.
  apply existsb_hasId_false in Eex.
  set (a := Twitch.id (TwitchApi.user info)) in *.
  assert (ledger w !! a = None) as Hled.
  { destruct (ledger w !! a) eqn:El; [|reflexivity].
    exfalso. apply Eex, Hwatched. unfold ledger in El. rewrite El. eauto. }
  set (s := {| id := a; username := Twitch.login (TwitchApi.user info);
               displayName := Twitch.display_name (TwitchApi.user info);
               profileImageUrl :=
                 Twitch.profile_image_url (TwitchApi.user info);
               addedAt := now; isLive := false; currentStream := None |}).
  set (w1 := set_disk _ w).
  assert (NoDup (ids (data_of (disk w1)))) as Hnd1.
  { unfold w1, ids. cbn [disk set_disk]. rewrite data_of_Some.
    cbn [streamers]. rewrite map_app. apply NoDup_app.
    repeat split; [exact Hnd| |apply NoDup_singleton].
    intros x Hx Hin. apply list_elem_of_singleton in Hin. by subst x. }
  assert (entityOf a w1 = Some (s, None, notifications a w)) as He.
  { unfold entityOf, stored, w1, ledger. cbn [disk set_disk].
    rewrite data_of_Some. cbn [streamers lastNotified].
    assert (List.find (hasId a) (streamers (data_of (disk w)) ++ [s]) = Some s)
      as ->.
    { apply find_hasId_snoc; [|reflexivity]. by apply stored_None. }
    unfold ledger in Hled. by rewrite Hled. }
  destruct (sweep_entity env w1 a _ Hnd1 He) as [He' _].
  rewrite Hh in He'. cbn in He'.
  apply entityOf_parts in He' as (Hs & Hl & Hc).
  split; [exact Hc|]. split; [exact Hl|]. by rewrite Hs.
Qed.

Lemma added_live_then_announced_witness :
  notifications "123"
    (after (checkAllStreamers (sweepEnv (liveSince newYear) (newYear + 60000)))
       (set_disk (snd (handleAddCommand twitchPath obliging theInternet 1
                         "/Alice" freshClient None))
          freshWorld)) = 1%nat.
Proof.
  refine (proj1 (added_live_then_announced twitchPath obliging theInternet 1
                   "/Alice" freshClient
                   (snd (TwitchApi.getStreamerInfo twitchPath "/Alice"
                           theInternet freshClient))
                   freshWorld
                   (snd (handleAddCommand twitchPath obliging theInternet 1
                           "/Alice" freshClient None))
                   "Alice" "alice" true
                   {| TwitchApi.user := alice;
                      TwitchApi.stream := Some (streamSince newYear);
                      TwitchApi.isLive := true |}
                   (sweepEnv (liveSince newYear) (newYear + 60000))
                   (streamSince newYear) [] _ _ _ _ _)).
  - constructor.
  - vm_compute. reflexivity.
  - vm_compute. reflexivity.
  - intros k [x Hx]. vm_compute in Hx. discriminate.
  - reflexivity.
Defined.

Lemma find_matching (p : Streamer -> bool) (l : list Streamer) (s : Streamer) :
  List.find p l = Some s -> s ∈ l /\ p s = true.
Proof.
  intros H. apply List.find_some in H as [Hin Hp].
  split; [by apply list_elem_of_In | exact Hp].
Qed.

(** X19.  [/turemove], whatever [toLowerCase] does.  It never answers
    that the removal failed.  When it answers that a streamer was removed,
    that streamer is the first stored one whose lower-cased user name is
    the lower-cased input; afterwards no record has its identifier, the
    other records are kept in order and the ledger has lost the entry of
    that identifier only.  When it answers that there is no such streamer,
    no stored user name matches and the content of the file is as
    before. *)
Theorem handleRemoveCommand_spec (toLowerCase : string -> string)
    (input : string) (file : File) :
  let reply := fst (handleRemoveCommand toLowerCase input file) in
  let after := data_of (snd (handleRemoveCommand toLowerCase input file)) in
  let matching :=
    fun s => String.eqb (toLowerCase (Storage.username s)) (toLowerCase input) in
  (forall name, reply ≠ ReplyRemoveFailed name) /\
  (forall name, reply = ReplyRemoved name ->
     exists s,
       List.find matching (streamers (data_of file)) = Some s /\
       displayName s = name /\
       (id s ∉ ids after) /\
       streamers after =
         List.filter (fun x => negb (hasId (id s) x)) (streamers (data_of file)) /\
       lastNotified after = delete (id s) (lastNotified (data_of file))) /\
  (forall name, reply = ReplyNoSuchStreamer name ->
     name = toLowerCase input /\
     after = data_of file /\
     forall s, s ∈ streamers (data_of file) ->
               toLowerCase (Storage.username s) ≠ toLowerCase input) /\
  ((exists name, reply = ReplyRemoved name) \/
   (exists name, reply = ReplyNoSuchStreamer name)).
Proof.
  cbn zeta. unfold handleRemoveCommand, getAllStreamers.
  rewrite readStorage_eq.
  destruct (List.find
              (fun s => String.eqb (toLowerCase (Storage.username s))
                          (toLowerCase input))
              (streamers (data_of file))) as [s|] eqn:Efind.
  - rewrite removeStreamer_eq, data_of_Some.
    apply find_matching in Efind as Hs. destruct Hs as [Hin _].
    assert (Nat.ltb
              (length (List.filter (fun x => negb (hasId (id s) x))
                         (streamers (data_of file))))
              (length (streamers (data_of file))) = true) as ->.
    { apply filter_others_length, list_elem_of_fmap. eauto. }
    cbn [fst snd]. rewrite data_of_Some. cbn [streamers lastNotified].
    split; [discriminate|]. split; [|split; [discriminate|]].
    + intros name [= <-]. exists s. split; [reflexivity|].
      split; [reflexivity|]. split; [apply filter_others_absent|]. by split.
    + left. eauto.
  - cbn [fst snd]. rewrite data_of_Some.
    split; [discriminate|]. split; [discriminate|]. split.
    + intros name [= <-]. split; [reflexivity|]. split; [reflexivity|].
      intros s Hs E.
      apply list_elem_of_In in Hs.
      pose proof (List.find_none _ _ Efind s Hs) as Hnone. cbn beta in Hnone.
      rewrite E, String.eqb_refl in Hnone. discriminate.
    + right. eauto.
Qed.

Lemma handleRemoveCommand_spec_witness :
  exists s,
    List.find
      (fun s => String.eqb (TwitchApi.toLowerCase (Storage.username s))
                  (TwitchApi.toLowerCase "ALICE"))
      (streamers (data_of (disk bothWatched))) = Some s /\
    displayName s = "Alice" /\
    (id s ∉ ids (data_of (snd (handleRemoveCommand TwitchApi.toLowerCase
                                 "ALICE" (disk bothWatched))))) /\
    streamers (data_of (snd (handleRemoveCommand TwitchApi.toLowerCase
                               "ALICE" (disk bothWatched)))) =
      List.filter (fun x => negb (hasId (id s) x))
        (streamers (data_of (disk bothWatched))) /\
    lastNotified (data_of (snd (handleRemoveCommand TwitchApi.toLowerCase
                                  "ALICE" (disk bothWatched)))) =
      delete (id s) (lastNotified (data_of (disk bothWatched))).
Proof.
  apply (proj1 (proj2 (handleRemoveCommand_spec TwitchApi.toLowerCase "ALICE"
                         (disk bothWatched))) "Alice").
  reflexivity.
Defined.

Lemma handleStatusCommand_effect (interaction : Interaction) (env : Env)
    (w : World) :
  deferReply_resolves interaction = true ->
  let failure :=
    if shown interaction ReplyStatusFailed then [ReplyStatusFailed] else [] in
  exists replies w',
    handleStatusCommand interaction env w = (replies, w') /\
    length (streamers (data_of (disk w'))) =
      length (streamers (data_of (disk w))) /\
    match streamers (data_of (disk w)) with
    | [] =>
        visible w' = visible w /\
        replies =
          if shown interaction ReplyNoStreamers then [ReplyNoStreamers]
          else failure
    | _ :: _ =>
        if shown interaction ReplyChecking then
          visible w' = visible (after (checkAllStreamers env) w) /\
          let final :=
            match List.filter isLive (streamers (data_of (disk w'))) with
            | [] => ReplyNoneLive
            | live =>
                ReplyLive (length (streamers (data_of (disk w'))))
                  (map liveField live)
            end in
          replies =
            ReplyChecking :: (if shown interaction final then [final]
                              else failure)
        else visible w' = visible w /\ replies = failure
    end.
Proof.
  intros Hdefer. cbn zeta. unfold handleStatusCommand. rewrite Hdefer.
  unfold getAllStreamers at 1. rewrite readStorage_eq.
  set (w0 := set_disk (Some (data_of (disk w))) w).
  assert (visible w0 = visible w) as Hv0 by reflexivity.
  assert (data_of (disk w0) = data_of (disk w)) as Hd0 by reflexivity.
  pose proof (checkAllStreamers_visible env w) as Hsweep.
  unfold statusCaught, shown.
  destruct (streamers (data_of (disk w))) as [|s l] eqn:El;
    cbn [fst length Nat.eqb].
  - destruct (editReply interaction ReplyNoStreamers);
      eexists; eexists; (split; [reflexivity|]);
      (split; [cbn [disk add_log]; by rewrite Hd0, El|]);
      (split; [reflexivity|]);
      by destruct (editReply interaction ReplyStatusFailed).
  - destruct (editReply interaction ReplyChecking).
    { eexists; eexists; (split; [reflexivity|]).
      split; [cbn [disk add_log]; by rewrite Hd0, El|].
      split; [reflexivity|].
      by destruct (editReply interaction ReplyStatusFailed). }
    destruct (checkAllStreamers_effect env w0) as (w1 & E & Hv1).
    rewrite E. rewrite Hd0, El, Hv0, <- Hsweep in Hv1.
    unfold getAllStreamers. rewrite readStorage_eq. cbn [fst].
    assert (length (streamers (data_of (disk w1))) = length (s :: l)) as Hlen.
    { replace (data_of (disk w1)) with (visible w1).1.1 by reflexivity.
      rewrite Hv1.
      change (visible (after (checkAllStreamers env) w)).1.1
        with (data_of (disk (after (checkAllStreamers env) w))).
      rewrite <- El, <- (length_map id),
        <- (length_map id (streamers (data_of (disk w)))).
      f_equal. apply sweep_ids. }
    destruct (List.filter isLive (streamers (data_of (disk w1)))) as [|x ls]
      eqn:Elive; cbn [length Nat.eqb].
    + destruct (editReply interaction ReplyNoneLive) eqn:Er;
        eexists; eexists; (split; [reflexivity|]);
        cbn [disk set_disk add_log]; rewrite data_of_Some, Elive;
        (split; [exact Hlen|]); (split; [exact Hv1|]);
        rewrite Er; by destruct (editReply interaction ReplyStatusFailed).
    + destruct (editReply interaction (ReplyLive _ _)) eqn:Er;
        eexists; eexists; (split; [reflexivity|]);
        cbn [disk set_disk add_log]; rewrite data_of_Some, Elive;
        (split; [exact Hlen|]); (split; [exact Hv1|]);
        rewrite Er; by destruct (editReply interaction ReplyStatusFailed).
Qed.

(** X20.  [/tustatus] by what Discord does with its answers.  When
    [deferReply] rejects nothing is done.  Otherwise the store keeps its
    number of records, and: on an empty store the answer says that nothing
    is monitored and nothing changes; when the answer that the check has
    started is not shown, no sweep runs and nothing changes; when it is
    shown, the file, the notifications and the messages are left as a sweep
    leaves them (it is a sweep, with its notifications), and the last
    answer reports the records that are stored live after the sweep, in the
    order of the store, with the number of all records, or says that none
    is live.  Whenever an answer cannot be built or sent the error message
    is shown in its place, or nothing when that is rejected too; this is
    what happens to the report of more than 25 live records. *)
Theorem handleStatusCommand_spec (interaction : Interaction) (env : Env)
    (w : World) :
  let replies := fst (handleStatusCommand interaction env w) in
  let w' := snd (handleStatusCommand interaction env w) in
  let failure :=
    if shown interaction ReplyStatusFailed then [ReplyStatusFailed] else [] in
  (deferReply_resolves interaction = false -> replies = [] /\ w' = w) /\
  (deferReply_resolves interaction = true ->
     length (streamers (data_of (disk w'))) =
       length (streamers (data_of (disk w))) /\
     match streamers (data_of (disk w)) with
     | [] =>
         visible w' = visible w /\
         replies =
           if shown interaction ReplyNoStreamers then [ReplyNoStreamers]
           else failure
     | _ :: _ =>
         if shown interaction ReplyChecking then
           visible w' = visible (after (checkAllStreamers env) w) /\
           let live := List.filter isLive (streamers (data_of (disk w'))) in
           let final :=
             match live with
             | [] => ReplyNoneLive
             | _ :: _ =>
                 ReplyLive (length (streamers (data_of (disk w'))))
                   (map liveField live)
             end in
           replies =
             ReplyChecking :: (if shown interaction final then [final]
                               else failure) /\
           ((25 < length live)%nat -> replies = ReplyChecking :: failure)
         else visible w' = visible w /\ replies = failure
     end).
Proof.
  cbn zeta. split.
  - intros Hdefer. unfold handleStatusCommand. by rewrite Hdefer.
  - intros Hdefer.
    destruct (handleStatusCommand_effect interaction env w Hdefer)
      as (replies & w' & E & Hlen & Hcases).
    rewrite E. cbn [fst snd]. split; [exact Hlen|].
    destruct (streamers (data_of (disk w))) as [|s l]; [exact Hcases|].
    destruct (shown interaction ReplyChecking); [|exact Hcases].
    destruct Hcases as [Hv Hr]. split; [exact Hv|].
    destruct (List.filter isLive (streamers (data_of (disk w')))) as [|x ls]
      eqn:Elive.
    + split; [exact Hr|]. cbn [length]. lia.
    + split; [exact Hr|]. intros Hmany. rewrite Hr.
      assert (shown interaction
                (ReplyLive (length (streamers (data_of (disk w'))))
                   (map liveField (x :: ls))) = false) as ->; [|reflexivity].
      unfold shown, editReply. cbn [withinLimits].
      rewrite length_map.
      assert ((length (x :: ls) <=? 25)%nat = false) as ->; [|reflexivity].
      apply Nat.leb_gt. exact Hmany.
Qed.

Lemma handleStatusCommand_spec_witness :
  length (streamers
            (data_of (disk (snd (handleStatusCommand obliging
                                   (sweepEnv (liveSince newYear)
                                      (newYear + 60000))
                                   aliceWatched))))) =
  length (streamers (data_of (disk aliceWatched))).
Proof.
  exact (proj1 (proj2 (handleStatusCommand_spec obliging
                         (sweepEnv (liveSince newYear) (newYear + 60000))
                         aliceWatched) eq_refl)).
Defined.

(** With twenty-six watched streamers who are all found live, every one of
    them is announced and stored as live, and the answer of [/tustatus] is
    the error message. *)
Example status_of_a_crowd :
  let result :=
    handleStatusCommand obliging
      (sweepEnv (liveSince newYear) (newYear + 60000)) crowd in
  fst result = [ReplyChecking; ReplyStatusFailed] /\
  length (List.filter isLive (streamers (data_of (disk (snd result)))))
    = 26%nat /\
  length (dispatched (snd result)) = 26%nat.
Proof. vm_compute. repeat split. Qed.

(** With one watched streamer who is found live the answers are these. *)
Example status_of_alice :
  fst (handleStatusCommand obliging
         (sweepEnv (liveSince newYear) (newYear + 60000)) aliceWatched) =
  [ReplyChecking;
   ReplyLive 1
     [{| field_name := "Alice"; field_url := "https://twitch.tv/alice";
         field_stream :=
           Some (Twitch.game_name (streamSince newYear),
                 Twitch.viewer_count (streamSince newYear)) |}]].
Proof. vm_compute. reflexivity. Qed.
